(** * Quote dashboard handlers: fetch-with-retry, fan-out and response policy

    A shallow embedding of the three serverless handlers of the repository

    - the economic-indicator endpoint ([Economic], first document of
      [src/unnamed/part_000]: [INDICATORS], [fetchIndicator], [handler]),
    - the sector stock endpoint ([Stocks], [src/unnamed/part_001]:
      [COMPANIES], [fetchStockPrice], [handler]),
    - the single-request stock endpoint ([ApiStocks], [src/api/stocks.js]:
      [COMPANIES], [fetchStockPrice], [handler]),

    together with the part of the JavaScript runtime they rely on: property
    enumeration of object literals, truthiness of strings, [fetch] with an
    abort timer, [Promise.all], and number division by zero.

    Everything the handlers read from outside is an explicit input: the
    request method, [process.env], the clock, the upstream's answer to every
    outbound request, and the order in which the per-symbol promises settle.
    Calls to [console.log] / [console.error] have no effect on the response
    and are left out, except for the argument of the final [console.log],
    whose evaluation can throw.

    Conventions.  A fetcher returns how its promise settles together with
    the trace of what it did (requests with their abort timer, waits).  The
    [retries] parameter is an integer, possibly negative, in [fetchWithRetry]
    and any finite number in [fetchWithRetry_num], which agree on integers.
    Result objects
    are a two-constructor type; the handlers still tell the two shapes apart
    the way the source does, by the truthiness of [error].  The second
    document of [src/unnamed/part_000], an earlier stock endpoint that sends
    one Finnhub request per ticker, has the handler text of [ApiStocks]; it
    is [QuoteStocks]. *)

From Stdlib Require Import ZArith QArith Qround String Ascii List Bool Lia.
From Stdlib Require Import DecimalString.
From stdpp Require Import base list.

Import ListNotations.
Local Open Scope string_scope.
Local Open Scope Z_scope.

(** ** JavaScript values used by the handlers *)

(** A thrown [Error]; the handlers only ever read its [message]. *)
Record Error := mkError { message : string }.

(** How the evaluation of an expression or of an [async] body ends. *)
Inductive completion (A : Type) : Type :=
| Returns (v : A)
| Throws (e : Error).
Arguments Returns {A} v.
Arguments Throws {A} e.

Definition bind {A B} (c : completion A) (k : A -> completion B) : completion B :=
  match c with
  | Returns v => k v
  | Throws e => Throws e
  end.

Notation "'do' x <- c ; k" := (bind c (fun x => k))
  (at level 10, x name, c at level 100, k at level 200).

(** Numbers.  Payload numbers are finite and are kept as exact rationals;
    the only non-finite values the handlers can produce come from the
    unguarded division.  The sign of an infinite quotient depends on the sign
    of the zero divisor, which rationals do not carry, so a single
    [Infinity] stands for both. *)
Inductive jsnum : Type :=
| Fin (q : Q)
| NaN
| Infinity.

Definition is_zero (q : Q) : bool := Qeq_bool q 0.

(** [x / d] for a finite divisor. *)
Definition js_div (x : jsnum) (d : Q) : jsnum :=
  match x with
  | Fin n =>
      if is_zero d then (if is_zero n then NaN else Infinity)
      else Fin (n / d)
  | NaN => NaN
  | Infinity => Infinity
  end.

(** [x * k] for a finite non-zero factor [k]. *)
Definition js_scale (x : jsnum) (k : Q) : jsnum :=
  match x with
  | Fin n => Fin (n * k)
  | NaN => NaN
  | Infinity => Infinity
  end.

Definition finite (x : jsnum) : bool :=
  match x with Fin _ => true | _ => false end.

(** Truthiness of a string, and of a possibly [undefined] string. *)
Definition truthy (s : string) : bool := negb (s =? "")%string.

Definition truthy_opt (s : option string) : bool :=
  match s with
  | Some s => truthy s
  | None => false
  end.

(** Template-literal rendering of an integer such as [response.status]. *)
Definition string_of_Z (z : Z) : string := NilZero.string_of_int (Z.to_int z).

(** ** Object literals used as registries *)

(** The own properties of an object, in creation order. *)
Definition JsObject (A : Type) : Type := list (string * A).

(** [o[k]] for an own property; [None] is [undefined]. *)
Fixpoint own_get {A} (k : string) (o : JsObject A) : option A :=
  match o with
  | [] => None
  | (k', v) :: rest => if (k' =? k)%string then Some v else own_get k rest
  end.

Definition digit_of (a : ascii) : option N :=
  let n := N_of_ascii a in
  if ((48 <=? n) && (n <=? 57))%N then Some (n - 48)%N else None.

Fixpoint digits_value (acc : N) (s : string) : option N :=
  match s with
  | EmptyString => Some acc
  | String a rest =>
      match digit_of a with
      | Some d => digits_value (acc * 10 + d)%N rest
      | None => None
      end
  end.

(** A property key is an array index when it is the canonical decimal
    spelling of an integer in [0, 2^32 - 2]. *)
Definition array_index (k : string) : option N :=
  match k with
  | EmptyString => None
  | String a rest =>
      if (Ascii.eqb a "0" && negb (rest =? "")%string)%bool then None
      else match digits_value 0%N k with
           | Some n => if (n <=? 4294967294)%N then Some n else None
           | None => None
           end
  end.

Fixpoint insert_index (x : N * string) (l : list (N * string)) : list (N * string) :=
  match l with
  | [] => [x]
  | y :: rest => if (fst x <=? fst y)%N then x :: l else y :: insert_index x rest
  end.

Definition index_keys (ks : list string) : list (N * string) :=
  fold_right insert_index []
    (flat_map (fun k => match array_index k with
                        | Some n => [(n, k)]
                        | None => []
                        end) ks).

Definition named (k : string) : bool :=
  match array_index k with Some _ => false | None => true end.

Definition named_keys (ks : list string) : list string := List.filter named ks.

(** [Object.keys(o)]: array-index keys in ascending numeric order, then the
    other string keys in creation order. *)
Definition Object_keys {A} (o : JsObject A) : list string :=
  map snd (index_keys (map fst o)) ++ named_keys (map fst o).

(** Names every plain object inherits from [Object.prototype]; reading one
    of them on [{}] yields a function or object, never [undefined]. *)
Definition Object_prototype_names : list string :=
  [ "constructor"; "toString"; "toLocaleString"; "valueOf"; "hasOwnProperty";
    "isPrototypeOf"; "propertyIsEnumerable"; "__proto__";
    "__defineGetter__"; "__defineSetter__"; "__lookupGetter__";
    "__lookupSetter__" ].

Definition inherited (k : string) : bool :=
  existsb (String.eqb k) Object_prototype_names.

(** [o[k] = v]: overwrite in place, or create the property last. *)
Fixpoint set_own {A} (k : string) (v : A) (o : JsObject A) : JsObject A :=
  match o with
  | [] => [(k, v)]
  | (k', v') :: rest =>
      if (k' =? k)%string then (k', v) :: rest else (k', v') :: set_own k v rest
  end.

(** ** The upstream service and [fetch] *)

(** What the handler can observe of an HTTP response. [text] is [None] when
    reading the body as text rejects; [json] throws when the body does not
    parse or is not an object. *)
Record UpstreamResponse (P : Type) : Type := {
  status : Z;
  text : option string;
  json : completion P
}.
Arguments status {P} _.
Arguments text {P} _.
Arguments json {P} _.

Definition ok {P} (response : UpstreamResponse P) : bool :=
  (200 <=? status response) && (status response <=? 299).

(** One outbound request as the upstream answers it: after [latency]
    milliseconds either the connection fails ([Throws]) or a response
    arrives.  [clock] is what [new Date().toISOString()] reads if the attempt
    gets as far as building its result. *)
Record exchange (P : Type) : Type := {
  latency : Z;
  answer : completion (UpstreamResponse P);
  clock : string
}.
Arguments latency {P} _.
Arguments answer {P} _.
Arguments clock {P} _.

(** The rejection of a request aborted by [AbortSignal.timeout]. *)
Definition TimeoutError : Error :=
  mkError "The operation was aborted due to timeout".

(** [await fetch(url, { signal })]: with an abort timer of [ms] milliseconds
    the request is abandoned once the upstream takes longer than that. *)
Definition fetch {P} (signal : option Z) (x : exchange P)
  : completion (UpstreamResponse P) :=
  match signal with
  | Some ms => if ms <? latency x then Throws TimeoutError else answer x
  | None => answer x
  end.

(** What a fetcher does to the outside world. *)
Inductive event : Type :=
| Request (url : string) (headers : list (string * string)) (signal : option Z)
| Sleep (ms : Z).

Definition is_request (ev : event) : bool :=
  match ev with Request _ _ _ => true | Sleep _ => false end.

Definition requests (tr : list event) : nat := length (List.filter is_request tr).

(** ** Quote results *)

(** A result object: the success shape returned by a fetcher, or the error
    shape built by a handler's [.catch].  [meta] is the registry metadata
    copied into the object, [fig] its numeric fields.  The failure shape has
    [null] in place of the value and an [error] property. *)
Inductive QuoteResult (M F : Type) : Type :=
| Success (symbol : string) (meta : M) (fig : F) (timestamp : string)
| Failure (symbol : string) (meta : M) (error : string) (timestamp : string).
Arguments Success {M F} symbol meta fig timestamp.
Arguments Failure {M F} symbol meta error timestamp.

Section Accessors.
Context {M F : Type}.

Definition symbol_of (q : QuoteResult M F) : string :=
  match q with
  | Success symbol _ _ _ => symbol
  | Failure symbol _ _ _ => symbol
  end.

Definition meta_of (q : QuoteResult M F) : M :=
  match q with
  | Success _ meta _ _ => meta
  | Failure _ meta _ _ => meta
  end.

(** [q.error]; [None] is [undefined]. *)
Definition error_of (q : QuoteResult M F) : option string :=
  match q with
  | Success _ _ _ _ => None
  | Failure _ _ error _ => Some error
  end.

Definition is_success (q : QuoteResult M F) : bool :=
  match q with Success _ _ _ _ => true | Failure _ _ _ _ => false end.

Definition is_failure (q : QuoteResult M F) : bool := negb (is_success q).
End Accessors.

(** The Finnhub quote payload
    [{ c: currentPrice, h: high, l: low, o: open, pc: previousClose, t: timestamp }]. *)
Module Finnhub.
Record quote : Type := { c : Q; h : Q; l : Q; o : Q; pc : Q; t : Q }.
End Finnhub.

(** The numeric fields of a Finnhub-backed result.  Subtraction, division
    and scaling are those of the rationals: the rounding and the overflow
    of binary64 arithmetic are not modelled, so [change] and
    [changePercent] are exact only where no rounding occurs, as in the
    zero-divisor case ([c - 0] is [c], and [c / 0] is [NaN] or an infinity),
    which is the only case the statements below rely on. *)
Record figures : Type := {
  value : Q;
  previousClose : Q;
  change : jsnum;
  changePercent : jsnum;
  high : Q;
  low : Q
}.

Definition figures_of (data : Finnhub.quote) : figures :=
  {| value := Finnhub.c data;
     previousClose := Finnhub.pc data;
     change := Fin (Finnhub.c data - Finnhub.pc data);
     changePercent :=
       js_scale (js_div (Fin (Finnhub.c data - Finnhub.pc data)) (Finnhub.pc data)) 100;
     high := Finnhub.h data;
     low := Finnhub.l data |}.

(** ** The retrying fetcher

    [fetchIndicator] and the sector [fetchStockPrice] are the same routine
    up to the registry they read, the properties they copy from its entry
    and the wording of the no-data message. *)

(** How the [try] block of one loop iteration ends. *)
Inductive attempt_end (A : Type) : Type :=
| Done (result : A)          (* return *)
| Continue (ms : Z)          (* rate limited: wait [ms], then continue *)
| Caught (e : Error).        (* thrown into the catch clause *)
Arguments Done {A} result.
Arguments Continue {A} ms.
Arguments Caught {A} e.

Section RetryingFetcher.
Context {M : Type}.
(** Reading the registry entry of a symbol and its properties. *)
Variable describe : string -> completion M.
(** Text that follows the symbol in the no-data message. *)
Variable no_data_note : string.

Definition quote_url (symbol apiKey : string) : string :=
  "https://finnhub.io/api/v1/quote?symbol=" ++ symbol ++ "&token=" ++ apiKey.

(** The request of every attempt:
    [fetch(url, { headers: { 'Accept': 'application/json' },
                  signal: AbortSignal.timeout(5000) })]. *)
Definition quote_request (symbol apiKey : string) : event :=
  Request (quote_url symbol apiKey) [("Accept", "application/json")] (Some 5000).

Definition api_error {P} (symbol : string) (response : UpstreamResponse P) : Error :=
  let errorText := default "Unknown error" (text response) in
  mkError ("API request failed for " ++ symbol ++ ": "
           ++ string_of_Z (status response) ++ " - " ++ errorText).

Definition no_data_error (symbol : string) : Error :=
  mkError ("No data available for " ++ symbol ++ no_data_note).

Definition try_attempt (symbol : string) (retries attempt : Z)
    (x : exchange Finnhub.quote) : attempt_end (QuoteResult M figures) :=
  match fetch (Some 5000) x with            (* the request of [quote_request] *)
  | Throws e => Caught e
  | Returns response =>
      if negb (ok response) then
        if (status response =? 429) && (attempt <? retries)
        then Continue (1000 * (attempt + 1))
        else Caught (api_error symbol response)
      else
        match json response with
        | Throws e => Caught e
        | Returns data =>
            if is_zero (Finnhub.c data) && is_zero (Finnhub.t data)
            then Caught (no_data_error symbol)
            else
              match describe symbol with
              | Throws e => Caught e
              | Returns info =>
                  Done (Success symbol info (figures_of data) (clock x))
              end
        end
  end.

(** The loop [for (let attempt = 0; attempt <= retries; attempt++)].  The
    body never assigns [attempt] or [retries], so it runs for
    [attempt = 0, 1, ..., retries] in turn, and for no value at all when
    [retries < 0]; [range] is what is left of that sequence.  The [k]-th
    iteration issues the [k]-th request of the call.  Falling off the end
    of the loop returns [undefined] ([Returns None]). *)
Fixpoint attempts (symbol apiKey : string) (retries : Z)
    (up : nat -> exchange Finnhub.quote) (range : list nat)
  : completion (option (QuoteResult M figures)) * list event :=
  match range with
  | [] => (Returns None, [])
  | k :: rest =>
      let attempt := Z.of_nat k in
      let request := quote_request symbol apiKey in
      match try_attempt symbol retries attempt (up k) with
      | Done result => (Returns (Some result), [request])
      | Continue ms =>
          let '(r, tr) := attempts symbol apiKey retries up rest in
          (r, request :: Sleep ms :: tr)
      | Caught e =>
          if attempt =? retries then (Throws e, [request])
          else
            let '(r, tr) := attempts symbol apiKey retries up rest in
            (r, request :: Sleep (500 * 2 ^ attempt) :: tr)
      end
  end.

Definition attempt_range (retries : Z) : list nat := seq 0 (Z.to_nat (retries + 1)).

(** [async function fetch...(symbol, apiKey, retries = 2)], for an integer
    [retries]: the default the handlers rely on, or any other integer
    passed by a caller.  [fetchWithRetry_num] below is the same text for a
    [retries] that need not be an integer. *)
Definition fetchWithRetry (symbol apiKey : string) (retries : option Z)
    (up : nat -> exchange Finnhub.quote)
  : completion (option (QuoteResult M figures)) * list event :=
  let retries := default 2 retries in
  attempts symbol apiKey retries up (attempt_range retries).
End RetryingFetcher.

(** ** The retry loop for any finite [retries]

    [retries] is a JavaScript number.  For one that is not an integer the
    loop condition [attempt <= retries] and the test [attempt < retries]
    still make sense, but [attempt === retries] never holds: the catch
    clause never rethrows.  The definitions below follow the source text
    with [retries] a rational; the loop counter stays an integer, and the
    body runs for [attempt = 0, 1, ..., floor(retries)]. *)
Section RetryingFetcherNum.
Context {M : Type}.
Variable describe : string -> completion M.
Variable no_data_note : string.

Definition try_attempt_num (symbol : string) (retries : Q) (attempt : Z)
    (x : exchange Finnhub.quote) : attempt_end (QuoteResult M figures) :=
  match fetch (Some 5000) x with
  | Throws e => Caught e
  | Returns response =>
      if negb (ok response) then
        if (status response =? 429) && negb (Qle_bool retries (inject_Z attempt))
        then Continue (1000 * (attempt + 1))
        else Caught (api_error symbol response)
      else
        match json response with
        | Throws e => Caught e
        | Returns data =>
            if is_zero (Finnhub.c data) && is_zero (Finnhub.t data)
            then Caught (no_data_error no_data_note symbol)
            else
              match describe symbol with
              | Throws e => Caught e
              | Returns info =>
                  Done (Success symbol info (figures_of data) (clock x))
              end
        end
  end.

Fixpoint attempts_num (symbol apiKey : string) (retries : Q)
    (up : nat -> exchange Finnhub.quote) (range : list nat)
  : completion (option (QuoteResult M figures)) * list event :=
  match range with
  | [] => (Returns None, [])
  | k :: rest =>
      let attempt := Z.of_nat k in
      let request := quote_request symbol apiKey in
      match try_attempt_num symbol retries attempt (up k) with
      | Done result => (Returns (Some result), [request])
      | Continue ms =>
          let '(r, tr) := attempts_num symbol apiKey retries up rest in
          (r, request :: Sleep ms :: tr)
      | Caught e =>
          if Qeq_bool (inject_Z attempt) retries then (Throws e, [request])
          else
            let '(r, tr) := attempts_num symbol apiKey retries up rest in
            (r, request :: Sleep (500 * 2 ^ attempt) :: tr)
      end
  end.

(** The values of [attempt] for which [attempt <= retries] holds. *)
Definition attempt_range_num (retries : Q) : list nat :=
  seq 0 (Z.to_nat (Qfloor retries + 1)).

Definition fetchWithRetry_num (symbol apiKey : string) (retries : option Q)
    (up : nat -> exchange Finnhub.quote)
  : completion (option (QuoteResult M figures)) * list event :=
  let retries := default (2 # 1)%Q retries in
  attempts_num symbol apiKey retries up (attempt_range_num retries).
End RetryingFetcherNum.

(** ** [Promise.all]

    [ps] are the input promises as they eventually settle, index-aligned
    with the input array; [order] lists indices in the order in which the
    promises settle.  Each fulfilment stores its value in the slot of its
    own index; the joint promise fulfils once no slot is empty and rejects
    with the first rejection.  [None]: still pending when [order] is used up. *)
Fixpoint Promise_all_run {A} (ps : list (completion A)) (order : list nat)
    (values : list (option A)) : option (completion (list A)) :=
  match mapM id values with
  | Some vs => Some (Returns vs)
  | None =>
      match order with
      | [] => None
      | i :: later =>
          match ps !! i with
          | Some (Returns v) => Promise_all_run ps later (<[i := Some v]> values)
          | Some (Throws e) => Some (Throws e)
          | None => Promise_all_run ps later values
          end
      end
  end.

Definition Promise_all {A} (ps : list (completion A)) (order : list nat)
  : option (completion (list A)) :=
  Promise_all_run ps order (replicate (length ps) None).

(** [promise.catch(handler)]. *)
Definition catch {A} (c : completion A) (handler : Error -> completion A) : completion A :=
  match c with
  | Returns v => Returns v
  | Throws e => handler e
  end.

(** ** The HTTP side *)

Record IncomingMessage : Type := { method : string }.

Record process_env : Type := { API_KEY : option string; NODE_ENV : option string }.

Inductive Body (R : Type) : Type :=
| ErrorBody (error message : string)
| InternalErrorBody (error message : string) (details : option string)
| UnavailableBody (error message : string) (data : list (option R))
| SuccessBody (success : bool) (timestamp : string) (data : list (option R))
    (grouped : option (JsObject (list R))).
Arguments ErrorBody {R} error message.
Arguments InternalErrorBody {R} error message details.
Arguments UnavailableBody {R} error message data.
Arguments SuccessBody {R} success timestamp data grouped.

(** The response object [res]: headers set so far, status code, and the
    body once [json] has sent one ([end()] sends none). *)
Record ServerResponse (R : Type) : Type := {
  headers : JsObject string;
  statusCode : option Z;
  body : option (Body R);
  finished : bool
}.
Arguments headers {R} _.
Arguments statusCode {R} _.
Arguments body {R} _.
Arguments finished {R} _.

Section Res.
Context {R : Type}.

Definition fresh : ServerResponse R :=
  {| headers := []; statusCode := None; body := None; finished := false |}.

Definition setHeader (name value : string) (res : ServerResponse R) : ServerResponse R :=
  {| headers := set_own name value (headers res);
     statusCode := statusCode res; body := body res; finished := finished res |}.

Definition res_status (code : Z) (res : ServerResponse R) : ServerResponse R :=
  {| headers := headers res; statusCode := Some code;
     body := body res; finished := finished res |}.

Definition res_json (b : Body R) (res : ServerResponse R) : ServerResponse R :=
  {| headers := headers res; statusCode := statusCode res;
     body := Some b; finished := true |}.

Definition res_end (res : ServerResponse R) : ServerResponse R :=
  {| headers := headers res; statusCode := statusCode res;
     body := body res; finished := true |}.
End Res.

(** Everything a request cycle reads from outside the process. *)
Record world (P : Type) : Type := {
  now : string;                              (* the handler's [new Date().toISOString()] *)
  upstream : string -> nat -> exchange P;    (* answer to the n-th request for a symbol *)
  settles_first : list nat                   (* indices of the promises that settle first, in order *)
}.
Arguments now {P} _.
Arguments upstream {P} _.
Arguments settles_first {P} _.

(** ** The handler

    The three [handler] functions differ in the registry, the fetcher, the
    wording of two messages and whether results are grouped by category;
    [handle_request] is their common text. *)
Section Handler.
Context {V M F P : Type}.
Variable REGISTRY : JsObject V.
Variable fetcher :
  string -> string -> (nat -> exchange P) ->
  completion (option (QuoteResult M F)) * list event.
(** Reading the registry entry of a symbol inside [.catch]. *)
Variable describe : string -> completion M.
(** [Some type] when the handler builds [grouped]. *)
Variable category : option (M -> string).
Variable unavailable_message : string.
Variable internal_message : string.

Local Abbreviation result := (QuoteResult M F).

Definition undefined_error : Error :=
  mkError "Cannot read properties of undefined (reading 'error')".

(** [item.error], where [item] may be [undefined]. *)
Definition read_error (item : option result) : completion (option string) :=
  match item with
  | Some q => Returns (error_of q)
  | None => Throws undefined_error
  end.

(** [data.every(item => item.error)]. *)
Fixpoint every_error (data : list (option result)) : completion bool :=
  match data with
  | [] => Returns true
  | item :: rest =>
      do e <- read_error item;
      if truthy_opt e then every_error rest else Returns false
  end.

(** The callback of [indicatorData.reduce].  [acc] starts as [{}]: when
    [k] is not an own property but a name inherited from [Object.prototype],
    [acc[k]] is truthy without being an array, no group is created and the
    call of [push] throws. *)
Definition group_step (type : M -> string) (acc : JsObject (list result))
    (indicator : option result) : completion (JsObject (list result)) :=
  do e <- read_error indicator;
  if negb (truthy_opt e) then
    match indicator with
    | Some q =>
        let k := type (meta_of q) in
        match own_get k acc with
        | Some group => Returns (set_own k (group ++ [q])%list acc)
        | None =>
            if inherited k
            then Throws (mkError "acc[indicator.type].push is not a function")
            else Returns (set_own k [q] acc)
        end
    | None => Throws undefined_error
    end
  else Returns acc.

Fixpoint reduce (type : M -> string) (data : list (option result))
    (acc : JsObject (list result)) : completion (JsObject (list result)) :=
  match data with
  | [] => Returns acc
  | indicator :: rest =>
      do acc' <- group_step type acc indicator;
      reduce type rest acc'
  end.

(** [data.filter(item => !item.error).length], logged before the reply. *)
Fixpoint count_successful (data : list (option result)) : completion nat :=
  match data with
  | [] => Returns 0%nat
  | item :: rest =>
      do e <- read_error item;
      do n <- count_successful rest;
      Returns (if truthy_opt e then n else S n)
  end.

(** [fetch...(symbol, apiKey).catch(error => ({ ..., error: error.message,
    timestamp }))]: the outcome of one symbol's promise and what the
    fetch did on the way. *)
Definition settled (apiKey timestamp : string) (w : world P) (symbol : string)
  : completion (option result) * list event :=
  let '(outcome, tr) := fetcher symbol apiKey (upstream w symbol) in
  (catch outcome (fun error =>
     do info <- describe symbol;
     Returns (Some (Failure symbol info (message error) timestamp))),
   tr).

Definition cors (res : ServerResponse result) : ServerResponse result :=
  setHeader "Access-Control-Allow-Headers" "Content-Type"
    (setHeader "Access-Control-Allow-Methods" "GET, OPTIONS"
       (setHeader "Access-Control-Allow-Origin" "*" res)).

(** The part of the [try] block after the fan-out has been joined. *)
Definition respond (timestamp : string) (joined : completion (list (option result)))
    (res : ServerResponse result) : completion (ServerResponse result) :=
  do data <- joined;
  do allFailed <- every_error data;
  if allFailed then
    Returns (res_json (UnavailableBody "Service unavailable" unavailable_message data)
               (res_status 503 res))
  else
    do grouped <-
      match category with
      | Some type => do g <- reduce type data []; Returns (Some g)
      | None => Returns None
      end;
    do _ <- count_successful data;
    Returns (res_json (SuccessBody true timestamp data grouped) (res_status 200 res)).

(** The reply of the [if (!apiKey)] branch. *)
Definition configuration_error (res : ServerResponse result) : ServerResponse result :=
  res_json
    (ErrorBody "Configuration error"
       "API key not configured. Please set API_KEY environment variable.")
    (res_status 500 res).

(** The reply of the outer [catch (error)] clause. *)
Definition internal_error (env : process_env) (error : Error)
    (res : ServerResponse result) : ServerResponse result :=
  res_json
    (InternalErrorBody "Internal server error" internal_message
       (match NODE_ENV env with
        | Some "development" => Some (message error)
        | _ => None
        end))
    (res_status 500 res).

(** [export default async function handler(req, res)].  The result is the
    final state of [res] ([None] while the fan-out is still pending) and
    the outbound activity of every symbol's fetch, in [symbols] order.  The
    promises named by [settles_first] settle first, in that order; whatever
    it leaves out settles afterwards, so every order of settlement is that
    of some [w]. *)
Definition handle_request (req : IncomingMessage) (env : process_env) (w : world P)
  : option (ServerResponse result) * list (list event) :=
  let res := cors fresh in
  if (method req =? "OPTIONS")%string then
    (Some (res_end (res_status 200 res)), [])
  else if negb (method req =? "GET")%string then
    (Some (res_json (ErrorBody "Method not allowed" "Only GET requests are supported")
             (res_status 405 res)), [])
  else
    match API_KEY env with
    | Some apiKey =>
        if truthy apiKey then
          let symbols := Object_keys REGISTRY in
          let timestamp := now w in
          let promises := map (settled apiKey timestamp w) symbols in
          let order := (settles_first w ++ seq 0 (length promises))%list in
          match Promise_all (map fst promises) order with
          | Some joined =>
              (Some match respond timestamp joined res with
                    | Returns sent => sent
                    | Throws error => internal_error env error res
                    end,
               map snd promises)
          | None => (None, map snd promises)
          end
        else (Some (configuration_error res), [])
    | None => (Some (configuration_error res), [])
    end.
End Handler.

(** The array a handler's [await Promise.all(...)] is expected to yield: the
    settled value of each symbol's promise, in the order of [symbols]. *)
Definition fan_out {M F P}
    (fetcher : string -> string -> (nat -> exchange P) ->
               completion (option (QuoteResult M F)) * list event)
    (describe : string -> completion M)
    (apiKey timestamp : string) (w : world P) (symbols : list string)
  : list (option (QuoteResult M F)) :=
  map (fun symbol =>
         match fst (settled fetcher describe apiKey timestamp w symbol) with
         | Returns item => item
         | Throws _ => None
         end) symbols.

(** Reading [REGISTRY[symbol].name] and its sibling properties: a
    [TypeError] when the symbol has no entry.  Only own properties are
    looked up, which is exact for the keys listed by [Object.keys] that the
    handlers pass, and for every symbol that is not a name inherited from
    [Object.prototype]; for such a name ([toString], [constructor], ...)
    the source reads the inherited value instead of [undefined], and
    statements about symbols without an entry exclude them. *)
Definition entry_of {V} (registry : JsObject V) (symbol : string) : completion V :=
  match own_get symbol registry with
  | Some info => Returns info
  | None => Throws (mkError "Cannot read properties of undefined (reading 'name')")
  end.

(** The text shared by the two handlers whose fetcher retries: they call it
    without a third argument, so with the default number of retries. *)
Definition retrying_handler {V} (registry : JsObject V) (note : string)
    (category : option (V -> string)) (unavailable_message internal_message : string)
    (req : IncomingMessage) (env : process_env) (w : world Finnhub.quote)
  : option (ServerResponse (QuoteResult V figures)) * list (list event) :=
  handle_request registry
    (fun symbol apiKey up => fetchWithRetry (entry_of registry) note symbol apiKey None up)
    (entry_of registry) category unavailable_message internal_message req env w.

(** ** Economic indicators ([src/unnamed/part_000], first document)

    In each module the registry is an explicit first argument, so that
    statements can range over registries; the deployed endpoint is the
    handler applied to the module's own table. *)
Module Economic.
Record info : Type := { name : string; type : string; description : string }.

Definition INDICATORS : JsObject info :=
  [ ("^GSPC", {| name := "S&P 500"; type := "Index"; description := "US Large Cap Index" |});
    ("^DJI", {| name := "Dow Jones Industrial Average"; type := "Index";
                description := "US Blue Chip Index" |});
    ("^IXIC", {| name := "NASDAQ Composite"; type := "Index";
                 description := "US Tech-Heavy Index" |});
    ("^RUT", {| name := "Russell 2000"; type := "Index";
                description := "US Small Cap Index" |});
    ("^VIX", {| name := "CBOE Volatility Index"; type := "Volatility";
                description := "Market Fear Gauge" |});
    ("^TNX", {| name := "US 10-Year Treasury Yield"; type := "Bonds";
                description := "10-Year Bond Yield" |});
    ("GC=F", {| name := "Gold Futures"; type := "Commodities"; description := "Gold Price" |});
    ("CL=F", {| name := "Crude Oil WTI"; type := "Commodities"; description := "Oil Price" |}) ].

Definition fetchIndicator (registry : JsObject info)
    (symbol apiKey : string) (retries : option Z) (up : nat -> exchange Finnhub.quote)
  : completion (option (QuoteResult info figures)) * list event :=
  fetchWithRetry (entry_of registry) "" symbol apiKey retries up.

Definition handler (registry : JsObject info)
    (req : IncomingMessage) (env : process_env) (w : world Finnhub.quote)
  : option (ServerResponse (QuoteResult info figures)) * list (list event) :=
  retrying_handler registry "" (Some type)
    "Unable to fetch economic indicator data from API"
    "An unexpected error occurred while fetching economic data"
    req env w.

(** What [indicatorData] is expected to be once the join fulfils. *)
Definition indicatorData (registry : JsObject info) (apiKey : string)
    (w : world Finnhub.quote) : list (option (QuoteResult info figures)) :=
  fan_out (fun symbol apiKey up => fetchIndicator registry symbol apiKey None up)
    (entry_of registry) apiKey (now w) w (Object_keys registry).
End Economic.

(** ** Sector stocks ([src/unnamed/part_001]) *)
Module Stocks.
Record info : Type := { name : string; sector : string }.

Definition COMPANIES : JsObject info :=
  [ ("AAPL", {| name := "Apple Inc."; sector := "Technology" |});
    ("MSFT", {| name := "Microsoft Corporation"; sector := "Technology" |});
    ("GOOGL", {| name := "Alphabet Inc."; sector := "Technology" |});
    ("META", {| name := "Meta Platforms Inc."; sector := "Technology" |});
    ("NVDA", {| name := "NVIDIA Corporation"; sector := "Technology" |});
    ("JNJ", {| name := "Johnson & Johnson"; sector := "Healthcare" |});
    ("UNH", {| name := "UnitedHealth Group"; sector := "Healthcare" |});
    ("PFE", {| name := "Pfizer Inc."; sector := "Healthcare" |});
    ("JPM", {| name := "JPMorgan Chase & Co."; sector := "Finance" |});
    ("BAC", {| name := "Bank of America Corp."; sector := "Finance" |});
    ("GS", {| name := "Goldman Sachs Group"; sector := "Finance" |});
    ("XOM", {| name := "Exxon Mobil Corporation"; sector := "Energy" |});
    ("CVX", {| name := "Chevron Corporation"; sector := "Energy" |});
    ("AMZN", {| name := "Amazon.com Inc."; sector := "Consumer" |});
    ("WMT", {| name := "Walmart Inc."; sector := "Consumer" |});
    ("COST", {| name := "Costco Wholesale"; sector := "Consumer" |});
    ("BA", {| name := "Boeing Company"; sector := "Industrial" |});
    ("CAT", {| name := "Caterpillar Inc."; sector := "Industrial" |}) ].

Definition fetchStockPrice (registry : JsObject info)
    (ticker apiKey : string) (retries : option Z) (up : nat -> exchange Finnhub.quote)
  : completion (option (QuoteResult info figures)) * list event :=
  fetchWithRetry (entry_of registry)
    " (market may be closed or invalid ticker)" ticker apiKey retries up.

Definition handler (registry : JsObject info)
    (req : IncomingMessage) (env : process_env) (w : world Finnhub.quote)
  : option (ServerResponse (QuoteResult info figures)) * list (list event) :=
  retrying_handler registry " (market may be closed or invalid ticker)" None
    "Unable to fetch stock data from API"
    "An unexpected error occurred while fetching stock data"
    req env w.

(** What [stockData] is expected to be once the join fulfils. *)
Definition stockData (registry : JsObject info) (apiKey : string)
    (w : world Finnhub.quote) : list (option (QuoteResult info figures)) :=
  fan_out (fun ticker apiKey up => fetchStockPrice registry ticker apiKey None up)
    (entry_of registry) apiKey (now w) w (Object_keys registry).
End Stocks.

(** ** Single-request stocks ([src/api/stocks.js]) *)
Module ApiStocks.
(** The API Ninjas payload. *)
Record stockprice : Type := { price : Q }.

Definition COMPANIES : JsObject string :=
  [ ("AAPL", "Apple Inc.");
    ("MSFT", "Microsoft Corporation");
    ("GOOGL", "Alphabet Inc.");
    ("META", "Meta Platforms Inc.");
    ("AMZN", "Amazon.com Inc.") ].

(** One request, no abort timer, no retry.  [companyName] is whatever
    [COMPANIES[ticker]] reads, possibly [undefined]. *)
Definition fetchStockPrice (registry : JsObject string)
    (ticker apiKey : string) (up : nat -> exchange stockprice)
  : completion (option (QuoteResult (option string) Q)) * list event :=
  let url := "https://api.api-ninjas.com/v1/stockprice?ticker=" ++ ticker in
  (do response <- fetch None (up 0%nat);
   if negb (ok response) then
     Throws (mkError ("API request failed for " ++ ticker ++ ": "
                      ++ string_of_Z (status response)))
   else
     do data <- json response;
     Returns (Some (Success ticker (own_get ticker registry) (price data)
                      (clock (up 0%nat)))),
   [Request url [("X-Api-Key", apiKey)] None]).

Definition handler (registry : JsObject string)
    (req : IncomingMessage) (env : process_env) (w : world stockprice)
  : option (ServerResponse (QuoteResult (option string) Q)) * list (list event) :=
  handle_request registry
    (fetchStockPrice registry)
    (fun ticker => Returns (own_get ticker registry)) None
    "Unable to fetch stock data from API"
    "An unexpected error occurred while fetching stock data"
    req env w.

(** What [stockData] is expected to be once the join fulfils. *)
Definition stockData (registry : JsObject string) (apiKey : string)
    (w : world stockprice) : list (option (QuoteResult (option string) Q)) :=
  fan_out (fetchStockPrice registry) (fun ticker => Returns (own_get ticker registry))
    apiKey (now w) w (Object_keys registry).
End ApiStocks.

(** ** Single-request Finnhub stocks ([src/unnamed/part_000], second document) *)
Module QuoteStocks.
(** The numeric fields of a result: no day high or low in this version. *)
Record pricing : Type := {
  price : Q;
  previousClose : Q;
  change : jsnum;
  changePercent : jsnum
}.

Definition COMPANIES : JsObject string :=
  [ ("AAPL", "Apple Inc.");
    ("MSFT", "Microsoft Corporation");
    ("GOOGL", "Alphabet Inc.");
    ("META", "Meta Platforms Inc.");
    ("AMZN", "Amazon.com Inc.") ].

(** As in [figures_of], the arithmetic is that of the rationals. *)
Definition pricing_of (data : Finnhub.quote) : pricing :=
  {| price := Finnhub.c data;
     previousClose := Finnhub.pc data;
     change := Fin (Finnhub.c data - Finnhub.pc data);
     changePercent :=
       js_scale (js_div (Fin (Finnhub.c data - Finnhub.pc data)) (Finnhub.pc data)) 100 |}.

(** [fetch(url)] with no options: one request, no header of its own, no
    abort timer, no retry. *)
Definition fetchStockPrice (registry : JsObject string)
    (ticker apiKey : string) (up : nat -> exchange Finnhub.quote)
  : completion (option (QuoteResult (option string) pricing)) * list event :=
  (do response <- fetch None (up 0%nat);
   if negb (ok response) then Throws (api_error ticker response)
   else
     do data <- json response;
     if is_zero (Finnhub.c data) && is_zero (Finnhub.t data)
     then Throws (no_data_error " (market may be closed or invalid ticker)" ticker)
     else Returns (Some (Success ticker (own_get ticker registry) (pricing_of data)
                           (clock (up 0%nat)))),
   [Request (quote_url ticker apiKey) [] None]).

Definition handler (registry : JsObject string)
    (req : IncomingMessage) (env : process_env) (w : world Finnhub.quote)
  : option (ServerResponse (QuoteResult (option string) pricing)) * list (list event) :=
  handle_request registry
    (fetchStockPrice registry)
    (fun ticker => Returns (own_get ticker registry)) None
    "Unable to fetch stock data from API"
    "An unexpected error occurred while fetching stock data"
    req env w.

(** What [stockData] is expected to be once the join fulfils. *)
Definition stockData (registry : JsObject string) (apiKey : string)
    (w : world Finnhub.quote) : list (option (QuoteResult (option string) pricing)) :=
  fan_out (fetchStockPrice registry) (fun ticker => Returns (own_get ticker registry))
    apiKey (now w) w (Object_keys registry).
End QuoteStocks.

(** ** Vocabulary of the statements *)

Fixpoint distinct (ks : list string) : bool :=
  match ks with
  | [] => true
  | k :: rest => negb (existsb (String.eqb k) rest) && distinct rest
  end.

(** A registry whose identifiers are pairwise distinct and none of which is
    an array index: the own properties of an object literal written with
    such keys, in the order in which the literal declares them. *)
Definition plain_keys {V} (registry : JsObject V) : bool :=
  forallb named (map fst registry) && distinct (map fst registry).

(** No category of the registry is a name inherited from [Object.prototype]. *)
Definition plain_categories {V} (category : option (V -> string))
    (registry : JsObject V) : bool :=
  match category with
  | Some type => forallb (fun entry => negb (inherited (type (snd entry)))) registry
  | None => true
  end.

(** The three headers set at the top of every handler. *)
Definition cors_headers : JsObject string :=
  [ ("Access-Control-Allow-Origin", "*");
    ("Access-Control-Allow-Methods", "GET, OPTIONS");
    ("Access-Control-Allow-Headers", "Content-Type") ].

(** [item.error] is truthy. *)
Definition flagged {M F} (q : QuoteResult M F) : bool := truthy_opt (error_of q).

(** The [data] property of a response body, when it has one. *)
Definition data_of {R} (res : ServerResponse R) : option (list (option R)) :=
  match body res with
  | Some (UnavailableBody _ _ data) => Some data
  | Some (SuccessBody _ _ data _) => Some data
  | _ => None
  end.

(** Every request of a trace carries an abort timer of [ms] milliseconds. *)
Definition time_bounded (ms : Z) (tr : list event) : Prop :=
  Forall (fun ev => match ev with
                    | Request _ _ signal => signal = Some ms
                    | Sleep _ => True
                    end) tr.

(** Errors raised by the runtime itself (a rejected [fetch], a body that
    does not parse) carry a non-empty message, as those of Node do. *)
Definition articulate {P} (x : exchange P) : Prop :=
  match answer x with
  | Throws e => message e <> ""
  | Returns response =>
      match json response with
      | Throws e => message e <> ""
      | Returns _ => True
      end
  end.

(** [item] is the result object standing for registry entry [entry], given
    how the symbol's fetch ended: the fetched object itself, or the failure
    object with the entry's metadata and the message of the thrown error. *)
Definition stands_for {M F} (outcome : completion (option (QuoteResult M F)))
    (timestamp : string) (entry : string * M) (item : option (QuoteResult M F)) : Prop :=
  exists q, item = Some q /\ symbol_of q = fst entry /\ meta_of q = snd entry /\
    match outcome with
    | Returns fetched => fetched = Some q /\ is_success q = true
    | Throws e => q = Failure (fst entry) (snd entry) (message e) timestamp
    end.

(** The successful results of category [k], in sequence order. *)
Definition successes_in {M F} (type : M -> string) (k : string)
    (data : list (option (QuoteResult M F))) : list (QuoteResult M F) :=
  List.filter (fun q => is_success q && (type (meta_of q) =? k)%string) (omap id data).
(** The response policy, for a response [res] sent for the results [data]. *)
Definition follows_policy {M F} (category : option (M -> string))
    (unavailable_message timestamp : string)
    (data : list (option (QuoteResult M F)))
    (res : ServerResponse (QuoteResult M F)) : Prop :=
  (Forall (fun item => exists q, item = Some q /\ is_failure q = true) data ->
   statusCode res = Some 503 /\
   body res = Some (UnavailableBody "Service unavailable" unavailable_message data)) /\
  (Exists (fun item => exists q, item = Some q /\ is_success q = true) data ->
   statusCode res = Some 200 /\
   exists grouped,
     body res = Some (SuccessBody true timestamp data grouped) /\
     match category with
     | None => grouped = None
     | Some type =>
         exists g, grouped = Some g /\
           forall k, own_get k g = match successes_in type k data with
                                   | [] => None
                                   | group => Some group
                                   end
     end).

(** ** Sample inputs for the examples *)
Module Samples.
Definition stamp : string := "2024-01-02T15:30:00.000Z".

Definition quote (c pc t : Q) : Finnhub.quote :=
  {| Finnhub.c := c; Finnhub.h := c; Finnhub.l := pc; Finnhub.o := pc;
     Finnhub.pc := pc; Finnhub.t := t |}.

(** A 200 answer with payload [data] after [ms] milliseconds. *)
Definition delivers {P} (ms : Z) (data : P) : exchange P :=
  {| latency := ms;
     answer := Returns {| status := 200; text := None; json := Returns data |};
     clock := stamp |}.

(** A non-2xx answer with a text body. *)
Definition refuses {P} (code : Z) (reason : string) : exchange P :=
  {| latency := 120;
     answer := Returns {| status := code; text := Some reason;
                          json := Throws (mkError "Unexpected token in JSON") |};
     clock := stamp |}.

Definition unreachable {P} : exchange P :=
  {| latency := 30; answer := Throws (mkError "fetch failed"); clock := stamp |}.

(** 429 on attempts 0 and 1, a valid quote on attempt 2. *)
Definition two_limits_then_quote (n : nat) : exchange Finnhub.quote :=
  match n with
  | 0%nat | 1%nat => refuses 429 "API limit reached"
  | _ => delivers 80 (quote 150 148 1704209400)
  end.

(** Three attempts failing in three different ways. *)
Definition three_failures (n : nat) : exchange Finnhub.quote :=
  match n with
  | 0%nat => unreachable
  | 1%nat => refuses 500 "Internal Server Error"
  | _ => delivers 80 (quote 0 0 0)
  end.

(** A first answer that takes seven seconds, then a valid quote. *)
Definition slow_then_quote (n : nat) : exchange Finnhub.quote :=
  match n with
  | 0%nat => delivers 7000 (quote 150 148 1704209400)
  | _ => delivers 80 (quote 150 148 1704209400)
  end.

(** The volatility index answers with a previous close of 0, every other
    symbol is unreachable, and the last promises settle first. *)
Definition choppy : world Finnhub.quote :=
  {| now := stamp;
     upstream := fun symbol _ =>
       if (symbol =? "^VIX")%string then delivers 80 (quote 13 0 1704209400)
       else unreachable;
     settles_first := [7; 6; 5; 4; 3; 2; 1; 0]%nat |}.

(** An upstream that takes a minute to answer the single stock request. *)
Definition sluggish (n : nat) : exchange ApiStocks.stockprice :=
  delivers 60000 {| ApiStocks.price := 150 |}.

Definition down : world ApiStocks.stockprice :=
  {| now := stamp; upstream := fun _ _ => unreachable; settles_first := [] |}.

(** Every symbol answers at once with the same valid quote. *)
Definition steady : world Finnhub.quote :=
  {| now := stamp;
     upstream := fun _ _ => delivers 80 (quote 150 148 1704209400);
     settles_first := [] |}.

(** Every request is rejected with an error whose message is empty. *)
Definition mute : world ApiStocks.stockprice :=
  {| now := stamp;
     upstream := fun _ _ => {| latency := 30; answer := Throws (mkError "");
                               clock := stamp |};
     settles_first := [] |}.

(** A registry declaring an array-index key after a named one. *)
Definition numbered : JsObject Stocks.info :=
  [ ("BRK", {| Stocks.name := "Berkshire Hathaway"; Stocks.sector := "Finance" |});
    ("7203", {| Stocks.name := "Toyota Motor"; Stocks.sector := "Industrial" |}) ].

(** A registry whose category is a name every object inherits. *)
Definition shadowing : JsObject Economic.info :=
  [ ("^GSPC", {| Economic.name := "S&P 500"; Economic.type := "constructor";
                 Economic.description := "US Large Cap Index" |}) ].
End Samples.

(** ** Further vocabulary *)

(** The waits of a trace, in order. *)
Definition waits (tr : list event) : list Z :=
  flat_map (fun ev => match ev with Sleep ms => [ms] | Request _ _ _ => [] end) tr.

(** The upstream answers in time with a 2xx response whose body parses to a
    quote that is not the no-data sentinel. *)
Definition delivers_quote (x : exchange Finnhub.quote) (data : Finnhub.quote) : Prop :=
  exists response,
    fetch (Some 5000) x = Returns response /\ ok response = true /\
    json response = Returns data /\
    is_zero (Finnhub.c data) && is_zero (Finnhub.t data) = false.

(** The status codes a handler sends. *)
Definition known_status (code : option Z) : Prop :=
  code = Some 200 \/ code = Some 405 \/ code = Some 500 \/ code = Some 503.

(** The body is the one of the outer [catch] clause. *)
Definition is_internal_error {R} (res : ServerResponse R) : bool :=
  match body res with
  | Some (InternalErrorBody _ _ _) => true
  | _ => false
  end.

(** The [details] property of a body, when it has one. *)
Definition details_of {R} (res : ServerResponse R) : option string :=
  match body res with
  | Some (InternalErrorBody _ _ details) => details
  | _ => None
  end.

(** The [grouped] property of a body, when it has one. *)
Definition grouped_of {R} (res : ServerResponse R) : option (JsObject (list R)) :=
  match body res with
  | Some (SuccessBody _ _ _ grouped) => grouped
  | _ => None
  end.

(** The result objects of an array, holes left out. *)
Definition objects {R} (data : list (option R)) : list R := omap id data.

(** ** Further sample inputs *)
Module MoreSamples.
(** Every attempt gets a valid quote. *)
Definition healthy (n : nat) : exchange Finnhub.quote :=
  Samples.delivers 80 (Samples.quote 150 148 1704209400).

(** With six retries: attempt 4 fails, attempt 5 is rate limited. *)
Definition late_limit (n : nat) : exchange Finnhub.quote :=
  match n with
  | 5%nat => Samples.refuses 429 "API limit reached"
  | _ => Samples.unreachable
  end.

(** Every attempt is answered 429. *)
Definition always_limited (n : nat) : exchange Finnhub.quote :=
  Samples.refuses 429 "API limit reached".

Definition post : IncomingMessage := {| method := "POST" |}.
End MoreSamples.

(** * Properties *)

(** ** Strings and objects *)

Lemma truthy_nonempty (s : string) : truthy s = true <-> s <> "".
Proof.
  unfold truthy. destruct (String.eqb_spec s ""); simpl; split; intros; congruence.
Qed.

Lemma own_get_set_own_eq {A} (k : string) (v : A) (o : JsObject A) :
  own_get k (set_own k v o) = Some v.
Proof.
  induction o as [|[k' v'] o IH]; simpl.
  - now rewrite String.eqb_refl.
  - destruct (String.eqb_spec k' k) as [->|Hne]; simpl.
    + now rewrite String.eqb_refl.
    + destruct (String.eqb_spec k' k); [congruence | exact IH].
Qed.

Lemma own_get_set_own_ne {A} (k k' : string) (v : A) (o : JsObject A) :
  k <> k' -> own_get k' (set_own k v o) = own_get k' o.
Proof.
  intros Hne. induction o as [|[k0 v0] o IH]; simpl.
  - destruct (String.eqb_spec k k'); [congruence | reflexivity].
  - destruct (String.eqb_spec k0 k) as [->|Hk]; simpl.
    + destruct (String.eqb_spec k k'); [congruence | reflexivity].
    + destruct (String.eqb_spec k0 k'); [reflexivity | exact IH].
Qed.

Lemma existsb_eqb_In (k : string) (ks : list string) :
  existsb (String.eqb k) ks = true <-> In k ks.
Proof.
  rewrite existsb_exists. split.
  - intros (x & Hx & Heq). apply String.eqb_eq in Heq. now subst.
  - intros Hin. exists k. split; [exact Hin | apply String.eqb_refl].
Qed.

Lemma own_get_In {A} (k : string) (v : A) (o : JsObject A) :
  distinct (map fst o) = true -> In (k, v) o -> own_get k o = Some v.
Proof.
  induction o as [|[k0 v0] o IH]; simpl; [tauto|].
  intros Hd [Heq | Hin].
  - inversion Heq; subst. now rewrite String.eqb_refl.
  - apply andb_true_iff in Hd as [Hfresh Hd].
    destruct (String.eqb_spec k0 k) as [->|Hne]; [|now apply IH].
    apply negb_true_iff in Hfresh.
    assert (existsb (String.eqb k) (map fst o) = true) as Hex.
    { apply existsb_eqb_In. change k with (fst (k, v)). now apply in_map. }
    congruence.
Qed.

Lemma own_get_is_In {A} (k : string) (v : A) (o : JsObject A) :
  own_get k o = Some v -> In (k, v) o.
Proof.
  induction o as [|[k0 v0] o IH]; simpl; [discriminate|].
  destruct (String.eqb_spec k0 k) as [->|Hne].
  - intros [= ->]. now left.
  - intros H. right. now apply IH.
Qed.

Lemma named_keys_all (ks : list string) :
  forallb named ks = true -> named_keys ks = ks /\ index_keys ks = [].
Proof.
  unfold named_keys, index_keys, named.
  induction ks as [|k ks IH]; simpl; [easy|].
  intros H. apply andb_true_iff in H as [Hk Hks].
  destruct (array_index k); [discriminate|].
  destruct (IH Hks) as [-> Hidx]. simpl in *. auto.
Qed.

(** On a plain registry [Object.keys] lists the identifiers as declared. *)
Lemma Object_keys_plain {V} (registry : JsObject V) :
  plain_keys registry = true -> Object_keys registry = map fst registry.
Proof.
  unfold plain_keys, Object_keys. intros H.
  apply andb_true_iff in H as [Hnamed _].
  destruct (named_keys_all _ Hnamed) as [-> ->]. reflexivity.
Qed.

Lemma In_insert_index (x y : N * string) (l : list (N * string)) :
  In y (insert_index x l) -> y = x \/ In y l.
Proof.
  induction l as [|z l IH]; simpl.
  - intros [<-|[]]. now left.
  - destruct (fst x <=? fst z)%N; simpl; intuition auto.
Qed.

(** Whatever the registry, [Object.keys] only lists own properties. *)
Lemma Object_keys_own {V} (registry : JsObject V) (k : string) :
  In k (Object_keys registry) -> exists v, own_get k registry = Some v.
Proof.
  intros Hin.
  assert (In k (map fst registry)) as Hk.
  { unfold Object_keys in Hin. apply in_app_or in Hin as [Hin|Hin].
    - apply in_map_iff in Hin as ([n k'] & <- & Hin). simpl.
      unfold index_keys in Hin.
      assert (forall l, In (n, k') (fold_right insert_index [] l) -> In (n, k') l) as Hfold.
      { induction l as [|z l IH]; simpl; [tauto|].
        intros H. apply In_insert_index in H as [->|H]; auto. }
      apply Hfold in Hin. apply in_flat_map in Hin as (k0 & Hk0 & Hin).
      destruct (array_index k0); simpl in Hin; [|tauto].
      destruct Hin as [[= _ ->]|[]]. exact Hk0.
    - unfold named_keys in Hin. now apply List.filter_In in Hin as [Hin _]. }
  clear Hin. induction registry as [|[k0 v0] registry IH]; simpl in *; [tauto|].
  destruct (String.eqb_spec k0 k); [eauto|].
  destruct Hk as [Hk|Hk]; [congruence | auto].
Qed.

(** Both tables of the source are plain, and an array-index key would be
    listed first. *)
Example deployed_registries_are_plain :
  plain_keys Economic.INDICATORS = true /\
  plain_categories (Some Economic.type) Economic.INDICATORS = true /\
  plain_keys Stocks.COMPANIES = true /\
  plain_keys ApiStocks.COMPANIES = true.
Proof. repeat split. Qed.

Example array_index_keys_come_first :
  Object_keys Samples.numbered = ["7203"; "BRK"].
Proof. reflexivity. Qed.

(** ** [Promise.all] joins by index *)

Section PromiseAll.
Context {A : Type}.
Implicit Types (vs : list A) (values : list (option A)) (order : list nat).

Lemma mapM_id_filled values :
  (forall i, (i < length values)%nat -> exists v, values !! i = Some (Some v)) ->
  is_Some (mapM id values).
Proof.
  intros Hfilled. apply mapM_is_Some_2, Forall_lookup_2.
  intros i x Hx. destruct (Hfilled i) as [v Hv].
  - now apply lookup_lt_Some in Hx.
  - rewrite Hx in Hv. inversion Hv; subst. simpl. eauto.
Qed.

Lemma mapM_id_agrees vs values l :
  length values = length vs ->
  (forall i v, values !! i = Some (Some v) -> vs !! i = Some v) ->
  mapM id values = Some l -> l = vs.
Proof.
  intros Hlen Hagree Hl. apply mapM_Some_1 in Hl.
  apply list_eq. intros j.
  destruct (l !! j) as [y|] eqn:Hy.
  - destruct (Forall2_lookup_r _ _ _ _ _ Hl Hy) as (x & Hx & Hid).
    unfold id in Hid. subst x. symmetry. now apply Hagree.
  - symmetry. apply lookup_ge_None. apply lookup_ge_None in Hy.
    apply Forall2_length in Hl. lia.
Qed.

Lemma Promise_all_run_fulfils vs order values :
  length values = length vs ->
  (forall i v, values !! i = Some (Some v) -> vs !! i = Some v) ->
  (forall i, (i < length vs)%nat ->
             In i order \/ exists v, values !! i = Some (Some v)) ->
  Promise_all_run (map Returns vs) order values = Some (Returns vs).
Proof.
  revert values. induction order as [|i later IH]; intros values Hlen Hagree Hcover.
  - simpl. destruct (mapM id values) as [l|] eqn:Hl.
    + now rewrite (mapM_id_agrees vs values l).
    + destruct (mapM_id_filled values) as [l Hl']; [|congruence].
      intros i Hi. destruct (Hcover i) as [[]|Hv]; [lia | exact Hv].
  - simpl. destruct (mapM id values) as [l|] eqn:Hl.
    + now rewrite (mapM_id_agrees vs values l).
    + change (map Returns vs) with (Returns <$> vs) at 1.
      rewrite list_lookup_fmap.
      destruct (vs !! i) as [v|] eqn:Hv; simpl.
      * apply IH.
        -- now rewrite length_insert.
        -- intros j u Hj. destruct (decide (i = j)) as [<-|Hne].
           ++ rewrite list_lookup_insert_eq in Hj.
              ** congruence.
              ** apply lookup_lt_Some in Hv. lia.
           ++ rewrite list_lookup_insert_ne in Hj by exact Hne. now apply Hagree.
        -- intros j Hj. destruct (decide (i = j)) as [<-|Hne].
           ++ right. exists v. apply list_lookup_insert_eq. lia.
           ++ destruct (Hcover j Hj) as [[Heq|Hin]|[u Hu]];
                [congruence | now left | right].
              exists u. now rewrite list_lookup_insert_ne.
      * apply IH; [exact Hlen | exact Hagree |].
        intros j Hj. destruct (Hcover j Hj) as [[Heq|Hin]|Hu]; [|now left | now right].
        subst j. apply lookup_ge_None in Hv. lia.
Qed.

(** Once every promise fulfils, the joint promise fulfils with the values
    in input order, whatever the order in which they arrived. *)
Lemma Promise_all_fulfils vs order :
  (forall i, (i < length vs)%nat -> In i order) ->
  Promise_all (map Returns vs) order = Some (Returns vs).
Proof.
  intros Hcover. unfold Promise_all. apply Promise_all_run_fulfils.
  - now rewrite length_replicate, length_map.
  - intros i v Hi. apply lookup_replicate in Hi as [Hi _]. discriminate.
  - intros i Hi. left. now apply Hcover.
Qed.

(** With every index in [order], the joint promise settles. *)
Lemma Promise_all_run_settles (ps : list (completion A)) order values :
  length values = length ps ->
  (forall i, (i < length ps)%nat ->
             In i order \/ exists v, values !! i = Some (Some v)) ->
  is_Some (Promise_all_run ps order values).
Proof.
  revert values. induction order as [|i later IH]; intros values Hlen Hcover; simpl.
  - destruct (mapM id values) as [l|] eqn:Hl; [eauto|].
    destruct (mapM_id_filled values) as [l Hl']; [|congruence].
    intros i Hi. destruct (Hcover i) as [[]|Hv]; [lia | exact Hv].
  - destruct (mapM id values) as [l|] eqn:Hl; [eauto|].
    destruct (ps !! i) as [[v|e]|] eqn:Hp; [|eauto|].
    + apply IH; [now rewrite length_insert|].
      intros j Hj. destruct (decide (i = j)) as [<-|Hne].
      * right. exists v. apply list_lookup_insert_eq. lia.
      * destruct (Hcover j Hj) as [[Heq|Hin]|[u Hu]]; [congruence | now left | right].
        exists u. now rewrite list_lookup_insert_ne.
    + apply IH; [exact Hlen|].
      intros j Hj. destruct (Hcover j Hj) as [[Heq|Hin]|Hu]; [|now left | now right].
      subst j. apply lookup_ge_None in Hp. lia.
Qed.

Lemma Promise_all_settles (ps : list (completion A)) (first : list nat) :
  is_Some (Promise_all ps (first ++ seq 0 (length ps))).
Proof.
  unfold Promise_all. apply Promise_all_run_settles.
  - now rewrite length_replicate.
  - intros i Hi. left. apply in_or_app. right. apply in_seq. lia.
Qed.
End PromiseAll.

(** ** The retrying fetcher, attempt by attempt *)

Section RetryFacts.
Context {M : Type}.
Variable describe : string -> completion M.
Variable note : string.
Variables symbol apiKey : string.
Variable r : Z.
Variable up : nat -> exchange Finnhub.quote.

Local Abbreviation run range := (attempts describe note symbol apiKey r up range).
Local Abbreviation tried k := (try_attempt describe note symbol r (Z.of_nat k) (up k)).
Local Abbreviation request := (quote_request symbol apiKey).

Lemma attempt_range_spec (k : nat) :
  In k (attempt_range r) <-> 0 <= Z.of_nat k <= r.
Proof. unfold attempt_range. rewrite in_seq. lia. Qed.

(** A rate-limit wait is only ever chosen on a 429 with attempts left. *)
Lemma try_attempt_continue (k : nat) (ms : Z) :
  tried k = Continue ms -> ms = 1000 * (Z.of_nat k + 1) /\ Z.of_nat k < r.
Proof.
  unfold try_attempt.
  destruct (fetch _ _) as [response|e]; [|discriminate].
  destruct (negb (ok response)).
  - destruct (status response =? 429); simpl.
    + destruct (Z.ltb_spec (Z.of_nat k) r); [|discriminate].
      intros [= <-]. split; [reflexivity | assumption].
    + discriminate.
  - destruct (json response) as [data|e]; [|discriminate].
    destruct (is_zero _ && is_zero _); [discriminate|].
    destruct (describe symbol); discriminate.
Qed.

(** The shape of a run over the attempts [a, a+1, ..., r]:
    the [j]-th request sits at position [2j] of the trace, and what
    follows it is decided by how the [try] block of that attempt ended. *)
Lemma attempts_structure (n a : nat) :
  Z.of_nat (a + n) = r + 1 ->
  (requests (snd (run (seq a n))) <= n)%nat /\
  ((0 < n)%nat -> (0 < requests (snd (run (seq a n))))%nat) /\
  forall j, (j < requests (snd (run (seq a n))))%nat ->
    nth_error (snd (run (seq a n))) (2 * j) = Some request /\
    match tried (a + j)%nat with
    | Done q =>
        fst (run (seq a n)) = Returns (Some q) /\
        requests (snd (run (seq a n))) = S j
    | Continue ms =>
        nth_error (snd (run (seq a n))) (2 * j + 1) = Some (Sleep ms) /\
        (S j < requests (snd (run (seq a n))))%nat
    | Caught e =>
        if Z.of_nat (a + j) =? r
        then fst (run (seq a n)) = Throws e /\
             requests (snd (run (seq a n))) = S j
        else nth_error (snd (run (seq a n))) (2 * j + 1)
               = Some (Sleep (500 * 2 ^ Z.of_nat (a + j))) /\
             (S j < requests (snd (run (seq a n))))%nat
    end.
Proof.
  revert a. induction n as [|n IH]; intros a Hend.
  - cbn. split; [unfold requests; simpl; lia|]. split; [lia|].
    intros j Hj. unfold requests in Hj. simpl in Hj. lia.
  - destruct (IH (S a)) as (Hle & Hpos & Hstep); [lia|].
    cbn [seq attempts].
    destruct (tried a) as [q|ms|e] eqn:Htry.
    + (* return *)
      cbn [fst snd]. split; [unfold requests; simpl; lia|].
      split; [unfold requests; simpl; lia|].
      intros j Hj. unfold requests in Hj. simpl in Hj.
      assert (j = 0)%nat as -> by lia.
      rewrite Nat.add_0_r, Htry. split; [reflexivity|]. split; reflexivity.
    + (* rate limited *)
      destruct (try_attempt_continue a ms Htry) as [-> Hlt].
      destruct (run (seq (S a) n)) as [res tr] eqn:Hrun. cbn [fst snd] in *.
      assert (requests (request :: Sleep (1000 * (Z.of_nat a + 1)) :: tr)
              = S (requests tr)) as Hreq by reflexivity.
      rewrite Hreq. split; [lia|]. split; [lia|].
      intros [|j] Hj.
      * rewrite Nat.add_0_r, Htry. split; [reflexivity|]. split; [reflexivity|].
        apply -> Nat.succ_lt_mono. apply Hpos. lia.
      * destruct (Hstep j) as [Hnth Hnext]; [lia|].
        replace (2 * S j)%nat with (S (S (2 * j))) by lia.
        replace (a + S j)%nat with (S a + j)%nat by lia.
        replace (S (S (2 * j)) + 1)%nat with (S (S (2 * j + 1))) by lia.
        cbn [nth_error].
        split; [exact Hnth|].
        destruct (tried (S a + j)) as [q'|ms'|e'].
        -- destruct Hnext as [-> ->]. split; reflexivity.
        -- destruct Hnext as [Hn Hlt']. split; [exact Hn | lia].
        -- destruct (Z.of_nat (S a + j) =? r).
           ++ destruct Hnext as [-> ->]. split; reflexivity.
           ++ destruct Hnext as [Hn Hlt']. split; [exact Hn | lia].
    + (* caught *)
      destruct (Z.eqb_spec (Z.of_nat a) r) as [Hlast|Hmore].
      * cbn [fst snd]. split; [unfold requests; simpl; lia|].
        split; [unfold requests; simpl; lia|].
        intros j Hj. unfold requests in Hj. simpl in Hj.
        assert (j = 0)%nat as -> by lia.
        rewrite Nat.add_0_r, Htry.
        destruct (Z.eqb_spec (Z.of_nat a) r); [|contradiction].
        split; [reflexivity|]. split; reflexivity.
      * destruct (run (seq (S a) n)) as [res tr] eqn:Hrun. cbn [fst snd] in *.
        assert (requests (request :: Sleep (500 * 2 ^ Z.of_nat a) :: tr)
                = S (requests tr)) as Hreq by reflexivity.
        rewrite Hreq. split; [lia|]. split; [lia|].
        intros [|j] Hj.
        -- rewrite Nat.add_0_r, Htry.
           destruct (Z.eqb_spec (Z.of_nat a) r); [contradiction|].
           split; [reflexivity|]. split; [reflexivity|].
           apply -> Nat.succ_lt_mono. apply Hpos. lia.
        -- destruct (Hstep j) as [Hnth Hnext]; [lia|].
           replace (2 * S j)%nat with (S (S (2 * j))) by lia.
           replace (a + S j)%nat with (S a + j)%nat by lia.
           replace (S (S (2 * j)) + 1)%nat with (S (S (2 * j + 1))) by lia.
           cbn [nth_error].
           split; [exact Hnth|].
           destruct (tried (S a + j)) as [q'|ms'|e'].
           ++ destruct Hnext as [-> ->]. split; reflexivity.
           ++ destruct Hnext as [Hn Hlt']. split; [exact Hn | lia].
           ++ destruct (Z.of_nat (S a + j) =? r).
              ** destruct Hnext as [-> ->]. split; reflexivity.
              ** destruct Hnext as [Hn Hlt']. split; [exact Hn | lia].
Qed.
(** The same for a whole call, whose attempts start at 0. *)
Lemma attempts_from_zero :
  0 <= r ->
  (requests (snd (run (attempt_range r))) <= Z.to_nat (r + 1))%nat /\
  (0 < requests (snd (run (attempt_range r))))%nat /\
  forall j, (j < requests (snd (run (attempt_range r))))%nat ->
    Z.of_nat j <= r /\
    nth_error (snd (run (attempt_range r))) (2 * j) = Some request /\
    match tried j with
    | Done q =>
        fst (run (attempt_range r)) = Returns (Some q) /\
        requests (snd (run (attempt_range r))) = S j
    | Continue ms =>
        ms = 1000 * (Z.of_nat j + 1) /\
        nth_error (snd (run (attempt_range r))) (2 * j + 1) = Some (Sleep ms) /\
        nth_error (snd (run (attempt_range r))) (2 * j + 2) = Some request /\
        (S j < requests (snd (run (attempt_range r))))%nat
    | Caught e =>
        if Z.of_nat j =? r
        then fst (run (attempt_range r)) = Throws e /\
             requests (snd (run (attempt_range r))) = S j
        else nth_error (snd (run (attempt_range r))) (2 * j + 1)
               = Some (Sleep (500 * 2 ^ Z.of_nat j)) /\
             nth_error (snd (run (attempt_range r))) (2 * j + 2) = Some request /\
             (S j < requests (snd (run (attempt_range r))))%nat
    end.
Proof.
  intros Hr. unfold attempt_range.
  destruct (attempts_structure (Z.to_nat (r + 1)) 0) as (Hle & Hpos & Hstep); [lia|].
  split; [exact Hle|]. split; [apply Hpos; lia|].
  intros j Hj. destruct (Hstep j Hj) as [Hnth Hnext]. cbn [Nat.add] in Hnext.
  split; [lia|]. split; [exact Hnth|].
  assert (forall i, (S j < requests (snd (run (seq 0 (Z.to_nat (r + 1))))))%nat ->
                    i = (2 * j + 2)%nat ->
                    nth_error (snd (run (seq 0 (Z.to_nat (r + 1))))) i = Some request)
    as Hretry.
  { intros i Hlt ->. replace (2 * j + 2)%nat with (2 * S j)%nat by lia.
    now apply Hstep. }
  destruct (tried j) as [q|ms|e] eqn:Htry.
  - exact Hnext.
  - destruct Hnext as [Hn Hlt]. destruct (try_attempt_continue j ms Htry) as [-> _].
    split; [reflexivity|]. split; [exact Hn|]. split; [now apply Hretry | exact Hlt].
  - destruct (Z.of_nat j =? r); [exact Hnext|].
    destruct Hnext as [Hn Hlt]. split; [exact Hn|]. split; [now apply Hretry | exact Hlt].
Qed.

(** Attempt [k] is made as soon as no earlier attempt returns. *)
Lemma attempts_reach (k : nat) :
  0 <= r -> Z.of_nat k <= r ->
  (forall j q, (j < k)%nat -> tried j <> Done q) ->
  (k < requests (snd (run (attempt_range r))))%nat.
Proof.
  intros Hr Hk Hfail. destruct (attempts_from_zero Hr) as (Hle & Hpos & Hstep).
  induction k as [|k IH]; [exact Hpos|].
  assert (k < requests (snd (run (attempt_range r))))%nat as Hmade.
  { apply IH; [lia|]. intros j q Hj. apply Hfail. lia. }
  destruct (Hstep k Hmade) as (_ & _ & Hnext).
  destruct (tried k) as [q|ms|e] eqn:Htry.
  - exfalso. apply (Hfail k q); [lia | exact Htry].
  - now destruct Hnext as (_ & _ & _ & Hmore).
  - destruct (Z.eqb_spec (Z.of_nat k) r); [lia|].
    now destruct Hnext as (_ & _ & Hmore).
Qed.

(** A whole call with [r >= 0] ends by returning an object or by throwing. *)
Lemma attempts_end :
  0 <= r ->
  (exists q, fst (run (attempt_range r)) = Returns (Some q)) \/
  (exists e, fst (run (attempt_range r)) = Throws e).
Proof.
  intros Hr. destruct (attempts_from_zero Hr) as (Hle & Hpos & Hstep).
  remember (requests (snd (run (attempt_range r)))) as n eqn:Hn.
  destruct n as [|j]; [lia|].
  destruct (Hstep j) as (_ & _ & Hnext); [lia|].
  destruct (tried j) as [q|ms|e].
  - left. exists q. apply Hnext.
  - destruct Hnext as (_ & _ & _ & Hmore). lia.
  - destruct (Z.of_nat j =? r).
    + right. exists e. apply Hnext.
    + destruct Hnext as (_ & _ & Hmore). lia.
Qed.

(** Every request of a run carries the five-second abort timer. *)
Lemma attempts_time_bounded (range : list nat) :
  time_bounded 5000 (snd (run range)).
Proof.
  unfold time_bounded.
  induction range as [|k rest IH]; cbn [attempts].
  - constructor.
  - destruct (tried k) as [q|ms|e].
    + repeat constructor.
    + destruct (run rest) as [res tr]. cbn [snd] in *. repeat constructor. exact IH.
    + destruct (Z.of_nat k =? r); [repeat constructor|].
      destruct (run rest) as [res tr]. cbn [snd] in *. repeat constructor. exact IH.
Qed.

(** A fetcher only ever returns the success shape, built from the entry of
    the symbol it was called with. *)
Lemma try_attempt_done (k : nat) (q : QuoteResult M figures) :
  tried k = Done q ->
  is_success q = true /\ symbol_of q = symbol /\ describe symbol = Returns (meta_of q).
Proof.
  unfold try_attempt.
  destruct (fetch _ _) as [response|?]; [|discriminate].
  destruct (negb (ok response)).
  - destruct (_ && _); discriminate.
  - destruct (json response) as [data|?]; [|discriminate].
    destruct (is_zero _ && is_zero _); [discriminate|].
    destruct (describe symbol) as [info|]; [|discriminate].
    intros [= <-]. repeat split.
Qed.

Lemma attempts_return_shape (range : list nat) (q : QuoteResult M figures) :
  fst (run range) = Returns (Some q) ->
  is_success q = true /\ symbol_of q = symbol /\ describe symbol = Returns (meta_of q).
Proof.
  induction range as [|k rest IH]; cbn [attempts].
  - discriminate.
  - destruct (tried k) as [q'|ms|e] eqn:Htry.
    + cbn [fst]. intros [= <-]. now apply try_attempt_done in Htry.
    + destruct (run rest) as [res tr]. exact IH.
    + destruct (Z.of_nat k =? r); [discriminate|].
      destruct (run rest) as [res tr]. exact IH.
Qed.
End RetryFacts.

(** ** Claims about the retrying fetcher

    [Economic.fetchIndicator registry] is [fetchWithRetry (entry_of registry) ""]
    and [Stocks.fetchStockPrice registry] is [fetchWithRetry (entry_of registry)
    " (market may be closed or invalid ticker)"], so the statements below,
    which hold for every [describe] and [note], cover both. *)

Section FetcherClaims.
Context {M : Type}.
Variable describe : string -> completion M.
Variable note : string.
Variables symbol apiKey : string.
Variable retries : option Z.
Variable up : nat -> exchange Finnhub.quote.

Local Abbreviation r := (default 2 retries).
Local Abbreviation call := (fetchWithRetry describe note symbol apiKey retries up).
Local Abbreviation tried k := (try_attempt describe note symbol r (Z.of_nat k) (up k)).
Local Abbreviation request := (quote_request symbol apiKey).

(** C3.  The fetcher makes attempts numbered 0..retries, at most
    [retries + 1] of them and at most three with the default of 2; request
    number [k] is the one of attempt [k], and when the [try] block of an
    attempt that is not the last ends in the catch clause, the fetcher
    waits [500 * 2^attempt] ms and then issues the next request. *)
Theorem fetch_attempts_and_backoff :
  0 <= r ->
  (0 < requests (snd call) <= Z.to_nat (r + 1))%nat /\
  (requests (snd (fetchWithRetry describe note symbol apiKey None up)) <= 3)%nat /\
  forall k, (k < requests (snd call))%nat ->
    Z.of_nat k <= r /\
    nth_error (snd call) (2 * k) = Some request /\
    forall e, tried k = Caught e -> Z.of_nat k < r ->
      nth_error (snd call) (2 * k + 1) = Some (Sleep (500 * 2 ^ Z.of_nat k)) /\
      nth_error (snd call) (2 * k + 2) = Some request.
Proof.
  intros Hr. unfold fetchWithRetry.
  destruct (attempts_from_zero describe note symbol apiKey r up Hr)
    as (Hle & Hpos & Hstep).
  split; [lia|]. split.
  - cbn [default].
    destruct (attempts_from_zero describe note symbol apiKey 2 up) as (Hle2 & _); [lia|].
    exact Hle2.
  - intros k Hk. destruct (Hstep k Hk) as (Hkr & Hnth & Hnext).
    split; [exact Hkr|]. split; [exact Hnth|].
    intros e He Hlt. rewrite He in Hnext.
    destruct (Z.eqb_spec (Z.of_nat k) r); [lia|].
    destruct Hnext as (Hsleep & Hretry & _). split; assumption.
Qed.

(** C6.  A 429 answer to attempt [k] with attempts left makes the fetcher
    wait [1000 * (k + 1)] ms and issue the next request; the call goes on,
    it does not end with that response.  In particular, with the default
    number of retries, 429 on attempts 0 and 1 and a valid quote on
    attempt 2 give a success after exactly the waits 1000 and 2000. *)
Theorem rate_limit_waits_and_retries :
  0 <= r ->
  (forall k response, (k < requests (snd call))%nat ->
     fetch (Some 5000) (up k) = Returns response ->
     status response = 429 -> Z.of_nat k < r ->
     nth_error (snd call) (2 * k + 1) = Some (Sleep (1000 * (Z.of_nat k + 1))) /\
     nth_error (snd call) (2 * k + 2) = Some request /\
     (S k < requests (snd call))%nat) /\
  (forall r0 r1 r2 data info,
     fetch (Some 5000) (up 0%nat) = Returns r0 -> status r0 = 429 ->
     fetch (Some 5000) (up 1%nat) = Returns r1 -> status r1 = 429 ->
     fetch (Some 5000) (up 2%nat) = Returns r2 -> ok r2 = true ->
     json r2 = Returns data ->
     is_zero (Finnhub.c data) && is_zero (Finnhub.t data) = false ->
     describe symbol = Returns info ->
     fetchWithRetry describe note symbol apiKey None up =
     (Returns (Some (Success symbol info (figures_of data) (clock (up 2%nat)))),
      [request; Sleep 1000; request; Sleep 2000; request])).
Proof.
  intros Hr. split.
  - intros k response Hk Hfetch Hstatus Hlt. unfold fetchWithRetry in *.
    destruct (attempts_from_zero describe note symbol apiKey r up Hr)
      as (Hle & Hpos & Hstep).
    destruct (Hstep k Hk) as (Hkr & Hnth & Hnext).
    assert (tried k = Continue (1000 * (Z.of_nat k + 1))) as Htry.
    { unfold try_attempt. rewrite Hfetch. unfold ok. rewrite Hstatus. cbn.
      destruct (Z.ltb_spec (Z.of_nat k) r); [reflexivity | lia]. }
    rewrite Htry in Hnext. destruct Hnext as (_ & Hsleep & Hretry & Hmore).
    split; [exact Hsleep|]. split; [exact Hretry | exact Hmore].
  - intros r0 r1 r2 data info H0 S0 H1 S1 H2 Hok Hjson Hdata Hinfo.
    assert (try_attempt describe note symbol 2 0 (up 0%nat) = Continue 1000) as T0.
    { unfold try_attempt. rewrite H0. unfold ok. now rewrite S0. }
    assert (try_attempt describe note symbol 2 1 (up 1%nat) = Continue 2000) as T1.
    { unfold try_attempt. rewrite H1. unfold ok. now rewrite S1. }
    assert (try_attempt describe note symbol 2 2 (up 2%nat)
            = Done (Success symbol info (figures_of data) (clock (up 2%nat)))) as T2.
    { unfold try_attempt. now rewrite H2, Hok, Hjson, Hdata, Hinfo. }
    unfold fetchWithRetry, attempt_range.
    change (seq 0 (Z.to_nat (default 2 None + 1))) with [0; 1; 2]%nat.
    cbn [attempts default]. change (Z.of_nat 0) with 0. change (Z.of_nat 1) with 1.
    change (Z.of_nat 2) with 2. now rewrite T0, T1, T2.
Qed.
(** Without a returning attempt, every attempt up to the last is made. *)
Lemma failing_attempts_all_made :
  0 <= r ->
  (forall k q, Z.of_nat k <= r -> tried k <> Done q) ->
  forall j, Z.of_nat j <= r -> (j < requests (snd call))%nat.
Proof.
  intros Hr Hfail j Hj. unfold fetchWithRetry.
  apply attempts_reach; [exact Hr | exact Hj |].
  intros i q Hi. apply Hfail. lia.
Qed.

(** C7.  A fetcher never returns the failure shape; when no attempt of a
    call returns, the call throws the error caught on the last attempt
    (attempt [retries]); and it is the handler's [.catch] that turns that
    error into a failure object carrying its message. *)
Theorem exhausted_fetch_throws_last_error :
  (forall q, fst call = Returns (Some q) -> is_success q = true) /\
  (0 <= r ->
   (forall k q, Z.of_nat k <= r -> tried k <> Done q) ->
   exists e,
     tried (Z.to_nat r) = Caught e /\ fst call = Throws e /\
     forall (w : world Finnhub.quote) (timestamp : string) (info : M),
       upstream w symbol = up -> describe symbol = Returns info ->
       fst (settled (fun s k u => fetchWithRetry describe note s k retries u)
              describe apiKey timestamp w symbol)
       = Returns (Some (Failure symbol info (message e) timestamp))).
Proof.
  split.
  - intros q Hq. unfold fetchWithRetry in Hq.
    now apply attempts_return_shape in Hq as [Hs _].
  - intros Hr Hfail.
    pose proof (failing_attempts_all_made Hr Hfail (Z.to_nat r)) as Hlast.
    unfold fetchWithRetry in *.
    destruct (attempts_from_zero describe note symbol apiKey r up Hr)
      as (Hle & Hpos & Hstep).
    destruct (Hstep (Z.to_nat r)) as (_ & _ & Hnext); [apply Hlast; lia|].
    destruct (tried (Z.to_nat r)) as [q|ms|e] eqn:Htry.
    + exfalso. apply (Hfail (Z.to_nat r) q); [lia | exact Htry].
    + destruct (try_attempt_continue _ _ _ _ _ _ _ Htry) as [_ Hlt]. lia.
    + destruct (Z.eqb_spec (Z.of_nat (Z.to_nat r)) r) as [_|Hne]; [|lia].
      destruct Hnext as [Hthrows _].
      exists e. split; [reflexivity|]. split; [exact Hthrows|].
      intros w timestamp info Hup Hinfo. unfold settled, fetchWithRetry. rewrite Hup.
      destruct (attempts _ _ _ _ _ _ _) as [res tr]. cbn [fst] in *.
      rewrite Hthrows. cbn. now rewrite Hinfo.
Qed.

End FetcherClaims.

(** ** The loop for a [retries] that is not an integer *)

Section RetryNumFacts.
Context {M : Type}.
Variable describe : string -> completion M.
Variable note : string.
Variables symbol apiKey : string.
Variable up : nat -> exchange Finnhub.quote.

Lemma below_integer (q : Q) (r a : Z) :
  (q == inject_Z r)%Q -> negb (Qle_bool q (inject_Z a)) = (a <? r).
Proof.
  intros Hq. destruct (Z.ltb_spec a r) as [Hlt|Hge];
    destruct (Qle_bool q (inject_Z a)) eqn:Hle; cbn; try reflexivity.
  - apply Qle_bool_iff in Hle. rewrite Hq in Hle. rewrite <- Zle_Qle in Hle. lia.
  - exfalso. assert (Qle_bool q (inject_Z a) = true) as Htrue; [|congruence].
    apply Qle_bool_iff. rewrite Hq. rewrite <- Zle_Qle. exact Hge.
Qed.

Lemma same_integer (q : Q) (r a : Z) :
  (q == inject_Z r)%Q -> Qeq_bool (inject_Z a) q = (a =? r).
Proof.
  intros Hq. destruct (Z.eqb_spec a r) as [->|Hne].
  - apply Qeq_bool_iff. now symmetry.
  - destruct (Qeq_bool (inject_Z a) q) eqn:Heq; [|reflexivity].
    apply Qeq_bool_iff in Heq. rewrite Hq in Heq.
    apply (proj1 (inject_Z_injective a r)) in Heq. contradiction.
Qed.

Lemma try_attempt_num_integer (q : Q) (r attempt : Z) (x : exchange Finnhub.quote) :
  (q == inject_Z r)%Q ->
  try_attempt_num describe note symbol q attempt x
  = try_attempt describe note symbol r attempt x.
Proof.
  intros Hq. unfold try_attempt_num, try_attempt.
  now rewrite (below_integer q r attempt Hq).
Qed.

Lemma attempts_num_integer (q : Q) (r : Z) (range : list nat) :
  (q == inject_Z r)%Q ->
  attempts_num describe note symbol apiKey q up range
  = attempts describe note symbol apiKey r up range.
Proof.
  intros Hq. induction range as [|k rest IH]; [reflexivity|].
  cbn [attempts_num attempts].
  now rewrite (try_attempt_num_integer q r _ _ Hq), (same_integer q r _ Hq), IH.
Qed.

Lemma attempt_range_num_integer (q : Q) (r : Z) :
  (q == inject_Z r)%Q -> attempt_range_num q = attempt_range r.
Proof.
  intros Hq. unfold attempt_range_num, attempt_range.
  now rewrite (Qfloor_comp _ _ Hq), Qfloor_Z.
Qed.

(** On integers the two texts of the loop are the same function. *)
Lemma fetchWithRetry_num_integer (retries : option Z) :
  fetchWithRetry_num describe note symbol apiKey (option_map inject_Z retries) up
  = fetchWithRetry describe note symbol apiKey retries up.
Proof.
  unfold fetchWithRetry_num, fetchWithRetry.
  assert (default (2 # 1)%Q (option_map inject_Z retries)
          == inject_Z (default 2%Z retries))%Q as Hq by (destruct retries; reflexivity).
  now rewrite (attempts_num_integer _ _ _ Hq), (attempt_range_num_integer _ _ Hq).
Qed.

Lemma attempts_num_requests (q : Q) (range : list nat) :
  (requests (snd (attempts_num describe note symbol apiKey q up range)) <= length range)%nat.
Proof.
  induction range as [|k rest IH]; [cbn; lia|]. cbn [attempts_num length].
  destruct (try_attempt_num describe note symbol q (Z.of_nat k) (up k)) as [res|ms|e].
  - cbn. lia.
  - destruct (attempts_num _ _ _ _ _ _ rest) as [r tr]. cbn [snd] in *.
    change (requests (quote_request symbol apiKey :: Sleep ms :: tr)) with (S (requests tr)).
    lia.
  - destruct (Qeq_bool (inject_Z (Z.of_nat k)) q); [cbn; lia|].
    destruct (attempts_num _ _ _ _ _ _ rest) as [r tr]. cbn [snd] in *.
    change (requests (quote_request symbol apiKey :: Sleep (500 * 2 ^ Z.of_nat k) :: tr))
      with (S (requests tr)).
    lia.
Qed.

End RetryNumFacts.


Section FetcherClaimsContinued.
Context {M : Type}.
Variable describe : string -> completion M.
Variable note : string.
Variables symbol apiKey : string.
Variable retries : option Z.
Variable up : nat -> exchange Finnhub.quote.

Local Abbreviation r := (default 2 retries).
Local Abbreviation call := (fetchWithRetry describe note symbol apiKey retries up).
Local Abbreviation tried k := (try_attempt describe note symbol r (Z.of_nat k) (up k)).
Local Abbreviation request := (quote_request symbol apiKey).

(** C4, amended.  Every request of a retrying fetcher carries the
    five-second abort timer, and an attempt whose answer takes longer ends
    in the catch clause like any other failed attempt: a wait of
    [500 * 2^attempt] ms and a new request, or, on the last attempt, the
    timeout error thrown to the caller. *)
Theorem retrying_requests_are_time_bounded :
  0 <= r ->
  time_bounded 5000 (snd call) /\
  forall k, (k < requests (snd call))%nat -> 5000 < latency (up k) ->
    tried k = Caught TimeoutError /\
    (Z.of_nat k < r ->
     nth_error (snd call) (2 * k + 1) = Some (Sleep (500 * 2 ^ Z.of_nat k)) /\
     nth_error (snd call) (2 * k + 2) = Some request) /\
    (Z.of_nat k = r -> fst call = Throws TimeoutError).
Proof.
  intros Hr. split; [apply attempts_time_bounded|].
  intros k Hk Hslow. unfold fetchWithRetry in *.
  destruct (attempts_from_zero describe note symbol apiKey r up Hr)
    as (Hle & Hpos & Hstep).
  destruct (Hstep k Hk) as (_ & _ & Hnext).
  assert (tried k = Caught TimeoutError) as Htry.
  { unfold try_attempt, fetch.
    destruct (Z.ltb_spec 5000 (latency (up k))); [reflexivity | lia]. }
  rewrite Htry in Hnext. split; [exact Htry|].
  destruct (Z.eqb_spec (Z.of_nat k) r) as [Heq|Hne].
  - split; [lia|]. intros _. apply Hnext.
  - split; [|lia]. intros _. destruct Hnext as (Hsleep & Hretry & _). now split.
Qed.
End FetcherClaimsContinued.

(** ** The handler, branch by branch *)

Section HandlerFacts.
Context {V M F P : Type}.
Variable REGISTRY : JsObject V.
Variable fetcher :
  string -> string -> (nat -> exchange P) ->
  completion (option (QuoteResult M F)) * list event.
Variable describe : string -> completion M.
Variable category : option (M -> string).
Variables unavailable_message internal_message : string.

Local Abbreviation serve :=
  (handle_request REGISTRY fetcher describe category unavailable_message internal_message).
Local Abbreviation result := (QuoteResult M F).

Lemma respond_keeps_headers timestamp joined (res sent : ServerResponse result) :
  respond category unavailable_message timestamp joined res = Returns sent ->
  headers sent = headers res.
Proof.
  unfold respond. destruct joined as [data|e]; [|discriminate]. cbn [bind].
  destruct (every_error data) as [[|]|e]; cbn [bind]; [| |discriminate].
  - now intros [= <-].
  - destruct category as [type|]; cbn [bind].
    + destruct (reduce type data []) as [g|e]; cbn [bind]; [|discriminate].
      destruct (count_successful data); cbn [bind]; [|discriminate]. now intros [= <-].
    + destruct (count_successful data); cbn [bind]; [|discriminate]. now intros [= <-].
Qed.

(** Whatever the request, the environment and the upstream do, the
    handler sends a response, and that response carries the headers set
    at the top. *)
Lemma handle_request_responds req env w :
  exists res, fst (serve req env w) = Some res /\ headers res = cors_headers.
Proof.
  unfold handle_request.
  destruct (method req =? "OPTIONS")%string; [eexists; split; reflexivity|].
  destruct (negb (method req =? "GET")%string); [eexists; split; reflexivity|].
  destruct (API_KEY env) as [apiKey|]; [|eexists; split; reflexivity].
  destruct (truthy apiKey); [|eexists; split; reflexivity].
  destruct (Promise_all_settles
              (map fst (map (settled fetcher describe apiKey (now w) w)
                          (Object_keys REGISTRY)))
              (settles_first w)) as [joined Hjoined].
  rewrite length_map in Hjoined. rewrite Hjoined. cbn [fst].
  destruct (respond _ _ _ _ _) as [sent|error] eqn:Hsent.
  - exists sent. split; [reflexivity|]. now apply respond_keeps_headers in Hsent.
  - eexists. split; reflexivity.
Qed.

(** Once the credential is there, the fan-out runs over [Object.keys] of
    the registry, and if no promise rejects the joined array is [fan_out],
    whatever the order in which the promises settle. *)
Lemma handle_request_fans_out req env w apiKey :
  method req = "GET" -> API_KEY env = Some apiKey -> truthy apiKey = true ->
  (forall symbol, In symbol (Object_keys REGISTRY) ->
     exists item, fst (settled fetcher describe apiKey (now w) w symbol) = Returns item) ->
  fst (serve req env w) =
  Some match respond category unavailable_message (now w)
               (Returns (fan_out fetcher describe apiKey (now w) w (Object_keys REGISTRY)))
               (cors fresh) with
       | Returns sent => sent
       | Throws error => internal_error internal_message env error (cors fresh)
       end.
Proof.
  intros Hget Hkey Htruthy Hsettled. unfold handle_request.
  rewrite Hget, Hkey, Htruthy. cbn [String.eqb Ascii.eqb Bool.eqb negb].
  assert (map fst (map (settled fetcher describe apiKey (now w) w) (Object_keys REGISTRY))
          = map Returns (fan_out fetcher describe apiKey (now w) w (Object_keys REGISTRY)))
    as Hps.
  { unfold fan_out. rewrite !map_map. apply map_ext_in. intros symbol Hin.
    destruct (Hsettled symbol Hin) as [item ->]. reflexivity. }
  rewrite Hps, Promise_all_fulfils; [reflexivity|].
  intros i Hi. apply in_or_app. right. apply in_seq.
  unfold fan_out in Hi. rewrite !length_map in *. lia.
Qed.
End HandlerFacts.

(** ** The response policy on a joined array without holes *)

Section RespondFacts.
Context {M F : Type}.
Variable category : option (M -> string).
Variable unavailable_message : string.

Local Abbreviation result := (QuoteResult M F).
Implicit Types (q : result) (qs : list result).

Lemma every_error_items qs :
  every_error (map Some qs) = Returns (forallb flagged qs).
Proof.
  induction qs as [|q qs IH]; [reflexivity|].
  cbn [map every_error read_error bind forallb]. fold (flagged q).
  destruct (flagged q); [exact IH | reflexivity].
Qed.

Lemma count_successful_items qs :
  exists n, count_successful (map Some qs) = Returns n.
Proof.
  induction qs as [|q qs [n IH]]; [now exists 0%nat|].
  cbn [map count_successful read_error bind]. rewrite IH. cbn [bind]. eauto.
Qed.

Lemma reduce_items (type : M -> string) qs (acc : JsObject (list result)) :
  (forall q, In q qs -> flagged q = false -> inherited (type (meta_of q)) = false) ->
  exists g,
    reduce type (map Some qs) acc = Returns g /\
    forall k,
      own_get k g =
      match List.filter (fun q => negb (flagged q) && (type (meta_of q) =? k)%string) qs with
      | [] => own_get k acc
      | group => Some (default [] (own_get k acc) ++ group)%list
      end.
Proof.
  revert acc. induction qs as [|q qs IH]; intros acc Hplain.
  - exists acc. split; [reflexivity|]. intros k. reflexivity.
  - cbn [map reduce group_step read_error bind]. fold (flagged q).
    destruct (flagged q) eqn:Hq; cbn [negb bind].
    + destruct (IH acc) as (g & Hg & Hgroups).
      { intros q' Hin. apply Hplain. now right. }
      exists g. split; [exact Hg|]. intros k. cbn [List.filter].
      rewrite Hq. cbn [negb andb]. apply Hgroups.
    + assert (exists acc',
                 match own_get (type (meta_of q)) acc with
                 | Some group => Returns (set_own (type (meta_of q)) (group ++ [q])%list acc)
                 | None =>
                     if inherited (type (meta_of q))
                     then Throws (mkError "acc[indicator.type].push is not a function")
                     else Returns (set_own (type (meta_of q)) [q] acc)
                 end = Returns acc' /\
                 acc' = set_own (type (meta_of q))
                          (default [] (own_get (type (meta_of q)) acc) ++ [q])%list acc)
        as (acc' & -> & Hacc').
      { destruct (own_get (type (meta_of q)) acc) as [group|]; cbn [default].
        - eexists. split; reflexivity.
        - rewrite (Hplain q) by (auto; now left). eexists. split; reflexivity. }
      cbn [bind]. destruct (IH acc') as (g & Hg & Hgroups).
      { intros q' Hin. apply Hplain. now right. }
      exists g. split; [exact Hg|]. intros k. rewrite Hgroups. cbn [List.filter].
      rewrite Hq. cbn [negb andb]. subst acc'.
      destruct (String.eqb_spec (type (meta_of q)) k) as [<-|Hne].
      * rewrite own_get_set_own_eq. cbn [default].
        destruct (List.filter _ qs) as [|q' group]; [reflexivity|].
        unfold id. now rewrite <- app_assoc.
      * now rewrite own_get_set_own_ne.
Qed.

Lemma respond_items timestamp qs (res : ServerResponse result) :
  plain_categories category (map (fun q => (symbol_of q, meta_of q)) qs) = true ->
  exists sent,
    respond category unavailable_message timestamp (Returns (map Some qs)) res
    = Returns sent /\
    if forallb flagged qs then
      sent = res_json (UnavailableBody "Service unavailable" unavailable_message (map Some qs))
               (res_status 503 res)
    else
      exists grouped,
        sent = res_json (SuccessBody true timestamp (map Some qs) grouped)
                 (res_status 200 res) /\
        match category with
        | None => grouped = None
        | Some type =>
            exists g, grouped = Some g /\
              forall k,
                own_get k g =
                match List.filter
                        (fun q => negb (flagged q) && (type (meta_of q) =? k)%string) qs with
                | [] => None
                | group => Some group
                end
        end.
Proof.
  intros Hplain. unfold respond. cbn [bind]. rewrite every_error_items. cbn [bind].
  destruct (forallb flagged qs); [eexists; split; reflexivity|].
  destruct (count_successful_items qs) as [n Hn]. rewrite Hn.
  destruct category as [type|]; cbn [bind].
  - destruct (reduce_items type qs []) as (g & Hg & Hgroups).
    { intros q Hin _. unfold plain_categories in Hplain.
      rewrite forallb_forall in Hplain.
      specialize (Hplain (symbol_of q, meta_of q)). cbn [snd] in Hplain.
      apply negb_true_iff, Hplain, in_map_iff. eauto. }
    rewrite Hg. cbn [bind]. eexists. split; [reflexivity|].
    exists (Some g). split; [reflexivity|]. exists g. split; [reflexivity|].
    intros k. rewrite Hgroups. cbn [own_get default app].
    now destruct (List.filter _ qs).
  - eexists. split; [reflexivity|]. exists None. split; reflexivity.
Qed.

Lemma omap_id_Some qs : omap id (map Some qs) = qs.
Proof. induction qs as [|q qs IH]; [reflexivity|]. cbn. now rewrite IH. Qed.

(** Where the truthiness of [error] tells the two shapes apart, the two
    replies of [respond] are what the policy asks for. *)
Lemma shape_follows_policy timestamp qs (res base : ServerResponse result) :
  Forall (fun q => flagged q = is_failure q) qs ->
  (if forallb flagged qs then
     res = res_json (UnavailableBody "Service unavailable" unavailable_message (map Some qs))
             (res_status 503 base)
   else
     exists grouped,
       res = res_json (SuccessBody true timestamp (map Some qs) grouped)
               (res_status 200 base) /\
       match category with
       | None => grouped = None
       | Some type =>
           exists g, grouped = Some g /\
             forall k,
               own_get k g =
               match List.filter
                       (fun q => negb (flagged q) && (type (meta_of q) =? k)%string) qs with
               | [] => None
               | group => Some group
               end
       end) ->
  data_of res = Some (map Some qs) /\
  follows_policy category unavailable_message timestamp (map Some qs) res.
Proof.
  intros Hflag Hshape.
  rewrite List.Forall_forall in Hflag.
  destruct (forallb flagged qs) eqn:Hall.
  - subst res. split; [reflexivity|]. split; [intros _; split; reflexivity|].
    intros Hsome. exfalso. apply List.Exists_exists in Hsome as (item & Hin & q & -> & Hq).
    apply in_map_iff in Hin as (q' & [= ->] & Hin).
    rewrite forallb_forall in Hall. specialize (Hall q Hin).
    rewrite (Hflag q Hin) in Hall. unfold is_failure in Hall. rewrite Hq in Hall.
    discriminate.
  - destruct Hshape as (grouped & -> & Hgrouped). split; [reflexivity|]. split.
    + intros Hnone. exfalso.
      assert (forallb flagged qs = true) as Hall'; [|congruence].
      apply forallb_forall. intros q Hin. rewrite (Hflag q Hin).
      rewrite List.Forall_forall in Hnone.
      destruct (Hnone (Some q)) as (q' & [= <-] & Hq); [|exact Hq].
      apply in_map_iff. eauto.
    + intros _. split; [reflexivity|]. exists grouped. split; [reflexivity|].
      destruct category as [type|]; [|exact Hgrouped].
      destruct Hgrouped as (g & -> & Hgroups). exists g. split; [reflexivity|].
      intros k. rewrite Hgroups. unfold successes_in. rewrite omap_id_Some.
      rewrite (List.filter_ext_in
                 (fun q => negb (flagged q) && (type (meta_of q) =? k)%string)
                 (fun q => is_success q && (type (meta_of q) =? k)%string)); [reflexivity|].
      intros q Hin. rewrite (Hflag q Hin). unfold is_failure. now rewrite negb_involutive.
Qed.
End RespondFacts.

(** ** What a retrying fetch hands to the handler *)

Section RetryOutcome.
Context {M : Type}.
Variable describe : string -> completion M.
Variable note : string.
Variables symbol apiKey : string.
Variable r : Z.
Variable up : nat -> exchange Finnhub.quote.

Local Abbreviation run range := (attempts describe note symbol apiKey r up range).
Local Abbreviation tried k := (try_attempt describe note symbol r (Z.of_nat k) (up k)).

Hypothesis describe_articulate :
  forall s e, describe s = Throws e -> message e <> "".

Lemma try_attempt_caught (k : nat) (e : Error) :
  articulate (up k) -> tried k = Caught e -> message e <> "".
Proof.
  unfold articulate, try_attempt, fetch. intros Hup.
  destruct (5000 <? latency (up k)).
  { intros [= <-]. discriminate. }
  destruct (answer (up k)) as [response|e']; [|now intros [= <-]].
  destruct (negb (ok response)).
  - destruct (_ && _); [discriminate|]. intros [= <-]. discriminate.
  - destruct (json response) as [data|e']; [|now intros [= <-]].
    destruct (is_zero _ && is_zero _).
    + intros [= <-]. discriminate.
    + destruct (describe symbol) as [info|e'] eqn:Hd; [discriminate|].
      intros [= <-]. now apply describe_articulate in Hd.
Qed.

Lemma attempts_throw_articulate (range : list nat) (e : Error) :
  (forall k, articulate (up k)) -> fst (run range) = Throws e -> message e <> "".
Proof.
  intros Hup. induction range as [|k rest IH]; cbn [attempts].
  - discriminate.
  - destruct (tried k) as [q'|ms|e'] eqn:Htry.
    + discriminate.
    + destruct (run rest) as [res tr]. exact IH.
    + destruct (Z.of_nat k =? r).
      * cbn [fst]. intros [= <-]. now apply (try_attempt_caught k).
      * destruct (run rest) as [res tr]. exact IH.
Qed.
End RetryOutcome.

Lemma entry_of_articulate {V} (registry : JsObject V) (s : string) (e : Error) :
  entry_of registry s = Throws e -> message e <> "".
Proof.
  unfold entry_of. destruct (own_get s registry); [discriminate|].
  intros [= <-]. discriminate.
Qed.

Lemma Forall2_map_r_In {A B} (P : A -> B -> Prop) (g : A -> B) (l : list A) :
  (forall x, In x l -> P x (g x)) -> Forall2 P l (map g l).
Proof.
  induction l as [|x l IH]; intros H; constructor.
  - apply H. now left.
  - apply IH. intros y Hy. apply H. now right.
Qed.

Section RetryingHandlerFacts.
Context {V : Type}.
Variable registry : JsObject V.
Variable note : string.
Variables apiKey timestamp : string.
Variable w : world Finnhub.quote.

Local Abbreviation fetcher :=
  (fun symbol apiKey up => fetchWithRetry (entry_of registry) note symbol apiKey None up).
Local Abbreviation outcome symbol :=
  (fst (fetchWithRetry (entry_of registry) note symbol apiKey None (upstream w symbol))).
Local Abbreviation promise symbol :=
  (fst (settled fetcher (entry_of registry) apiKey timestamp w symbol)).

(** The promise of a registered symbol fulfils with the object that
    stands for its entry. *)
Lemma settled_stands_for (symbol : string) (info : V) :
  own_get symbol registry = Some info ->
  exists item, promise symbol = Returns item /\
               stands_for (outcome symbol) timestamp (symbol, info) item.
Proof.
  intros Hown. unfold settled, stands_for.
  assert (entry_of registry symbol = Returns info) as Hentry.
  { unfold entry_of. now rewrite Hown. }
  assert ((exists q, outcome symbol = Returns (Some q)) \/
          (exists e, outcome symbol = Throws e)) as Hends.
  { unfold fetchWithRetry. cbn [default]. apply attempts_end. lia. }
  destruct (fetchWithRetry _ _ _ _ _ _) as [res tr] eqn:Hcall. cbn [fst] in *.
  destruct Hends as [[q ->]|[e ->]]; cbn [catch bind].
  - exists (Some q). split; [reflexivity|]. exists q.
    assert (fst (attempts (entry_of registry) note symbol apiKey 2
                   (upstream w symbol) (attempt_range 2)) = Returns (Some q)) as Hq.
    { unfold fetchWithRetry in Hcall. cbn [default] in Hcall. now rewrite Hcall. }
    apply attempts_return_shape in Hq as (Hs & Hsym & Hmeta).
    rewrite Hentry in Hmeta. injection Hmeta as Hmeta.
    repeat split; try assumption. now symmetry.
  - rewrite Hentry. cbn [bind]. eexists. split; [reflexivity|].
    eexists. repeat split.
Qed.

End RetryingHandlerFacts.

(** ** From the fan-out to the response *)

Section PolicyFacts.
Context {V M F P : Type}.
Variable REGISTRY : JsObject V.
Variable fetcher :
  string -> string -> (nat -> exchange P) ->
  completion (option (QuoteResult M F)) * list event.
Variable describe : string -> completion M.
Variable category : option (M -> string).
Variables unavailable_message internal_message : string.
Variables (env : process_env) (w : world P) (apiKey : string).

Local Abbreviation serve :=
  (handle_request REGISTRY fetcher describe category unavailable_message internal_message).
Local Abbreviation promise symbol :=
  (fst (settled fetcher describe apiKey (now w) w symbol)).
Local Abbreviation expected :=
  (fan_out fetcher describe apiKey (now w) w (Object_keys REGISTRY)).

Hypothesis key_configured : API_KEY env = Some apiKey.
Hypothesis key_truthy : truthy apiKey = true.

Lemma fan_out_items (symbols : list string) (good : QuoteResult M F -> Prop) :
  (forall symbol, In symbol symbols ->
     exists q, promise symbol = Returns (Some q) /\ good q) ->
  exists qs, fan_out fetcher describe apiKey (now w) w symbols = map Some qs /\
             Forall good qs.
Proof.
  induction symbols as [|symbol symbols IH]; intros Hgood.
  - exists []. split; [reflexivity | constructor].
  - destruct (Hgood symbol) as (q & Hq & Hgq); [now left|].
    destruct IH as (qs & Hqs & Hall); [intros s Hs; apply Hgood; now right|].
    exists (q :: qs). split; [|now constructor].
    cbn [fan_out map]. rewrite Hq. f_equal. exact Hqs.
Qed.

(** A handler whose promises all fulfil with objects sends the unavailable
    or the success response, with the expected array as [data]. *)
Lemma handle_request_sends_data (good : QuoteResult M F -> Prop) :
  (forall symbol, In symbol (Object_keys REGISTRY) ->
     exists q, promise symbol = Returns (Some q) /\ good q /\
               match category with
               | Some type => inherited (type (meta_of q)) = false
               | None => True
               end) ->
  exists qs res,
    expected = map Some qs /\ Forall good qs /\
    fst (serve {| method := "GET" |} env w) = Some res /\
    headers res = cors_headers /\
    if forallb flagged qs then
      res = res_json (UnavailableBody "Service unavailable" unavailable_message expected)
              (res_status 503 (cors fresh))
    else
      exists grouped,
        res = res_json (SuccessBody true (now w) expected grouped)
                (res_status 200 (cors fresh)) /\
        match category with
        | None => grouped = None
        | Some type =>
            exists g, grouped = Some g /\
              forall k,
                own_get k g =
                match List.filter
                        (fun q => negb (flagged q) && (type (meta_of q) =? k)%string) qs with
                | [] => None
                | group => Some group
                end
        end.
Proof.
  intros Hgood.
  destruct (fan_out_items (Object_keys REGISTRY)
              (fun q => good q /\ match category with
                                  | Some type => inherited (type (meta_of q)) = false
                                  | None => True
                                  end)) as (qs & Hqs & Hall).
  { intros symbol Hin. destruct (Hgood symbol Hin) as (q & Hq & Hg & Hc). eauto. }
  assert (plain_categories category (map (fun q => (symbol_of q, meta_of q)) qs) = true)
    as Hplain.
  { unfold plain_categories. destruct category as [type|]; [|reflexivity].
    apply forallb_forall. intros [s m] Hin. apply in_map_iff in Hin as (q & [= <- <-] & Hin).
    rewrite List.Forall_forall in Hall. cbn [snd]. destruct (Hall q Hin) as [_ ->].
    reflexivity. }
  destruct (respond_items category unavailable_message (now w) qs (cors fresh) Hplain)
    as (sent & Hsent & Hshape).
  exists qs, sent. split; [exact Hqs|]. split.
  { eapply Forall_impl; [exact Hall|]. now intros q [Hg _]. }
  split.
  { rewrite (handle_request_fans_out REGISTRY fetcher describe category
               unavailable_message internal_message {| method := "GET" |} env w apiKey);
      try assumption; try reflexivity.
    - now rewrite Hqs, Hsent.
    - intros symbol Hin. destruct (Hgood symbol Hin) as (q & Hq & _). eauto. }
  split.
  { now apply respond_keeps_headers in Hsent. }
  rewrite Hqs. exact Hshape.
Qed.
End PolicyFacts.

Section RetryingPromises.
Context {V : Type}.
Variable registry : JsObject V.
Variable note : string.
Variable category : option (V -> string).
Variables apiKey timestamp : string.
Variable w : world Finnhub.quote.

Local Abbreviation fetcher :=
  (fun symbol apiKey up => fetchWithRetry (entry_of registry) note symbol apiKey None up).
Local Abbreviation outcome symbol :=
  (fst (fetchWithRetry (entry_of registry) note symbol apiKey None (upstream w symbol))).
Local Abbreviation promise symbol :=
  (fst (settled fetcher (entry_of registry) apiKey timestamp w symbol)).

Lemma plain_category_of (symbol : string) (info : V) :
  plain_categories category registry = true ->
  own_get symbol registry = Some info ->
  match category with
  | Some type => inherited (type info) = false
  | None => True
  end.
Proof.
  unfold plain_categories. destruct category as [type|]; [|easy].
  intros Hplain Hown. rewrite forallb_forall in Hplain.
  apply own_get_is_In in Hown. apply Hplain in Hown. now apply negb_true_iff in Hown.
Qed.

Lemma retrying_promise (symbol : string) :
  In symbol (Object_keys registry) ->
  exists q info,
    own_get symbol registry = Some info /\
    promise symbol = Returns (Some q) /\
    stands_for (outcome symbol) timestamp (symbol, info) (Some q) /\
    ((forall n, articulate (upstream w symbol n)) -> flagged q = is_failure q).
Proof.
  intros Hin. destruct (Object_keys_own registry symbol Hin) as [info Hown].
  destruct (settled_stands_for registry note apiKey timestamp w symbol info Hown)
    as (item & Hitem & Hstands).
  pose proof Hstands as (q & -> & Hsym & Hmeta & Hout).
  exists q, info. repeat split; try assumption.
  intros Hup. destruct (outcome symbol) as [fetched|e] eqn:Hcall.
  - destruct Hout as [_ Hs]. destruct q; [reflexivity | discriminate].
  - subst q. unfold flagged, is_failure. cbn.
    apply truthy_nonempty.
    unfold fetchWithRetry in Hcall. cbn [default] in Hcall.
    apply (attempts_throw_articulate (entry_of registry) note symbol apiKey 2
             (upstream w symbol) (entry_of_articulate registry) _ e Hup Hcall).
Qed.
End RetryingPromises.

Section ApiStocksPromises.
Variable registry : JsObject string.
Variables apiKey timestamp : string.
Variable w : world ApiStocks.stockprice.

Lemma api_stocks_promise (ticker : string) :
  exists q,
    fst (settled (ApiStocks.fetchStockPrice registry)
           (fun ticker => Returns (own_get ticker registry)) apiKey timestamp w ticker)
    = Returns (Some q) /\
    symbol_of q = ticker /\ meta_of q = own_get ticker registry /\
    (articulate (upstream w ticker 0%nat) -> flagged q = is_failure q).
Proof.
  unfold settled, ApiStocks.fetchStockPrice, articulate, fetch. cbn [fst].
  destruct (answer (upstream w ticker 0%nat)) as [response|e]; cbn [bind catch].
  - destruct (negb (ok response)); cbn [bind catch].
    + eexists. repeat split.
    + destruct (json response) as [data|e]; cbn [bind catch].
      * eexists. repeat split.
      * eexists. repeat split. intros He. unfold flagged, is_failure. cbn.
        now apply truthy_nonempty.
  - eexists. repeat split. intros He. unfold flagged, is_failure. cbn.
    now apply truthy_nonempty.
Qed.
End ApiStocksPromises.

(** ** Claims about the handlers *)



Lemma retrying_policy {V} (registry : JsObject V) (note : string)
    (category : option (V -> string)) (unavailable_message internal_message : string)
    (apiKey : string) (nodeEnv : option string) (w : world Finnhub.quote) :
  truthy apiKey = true ->
  plain_categories category registry = true ->
  (forall symbol n, articulate (upstream w symbol n)) ->
  exists res,
    fst (retrying_handler registry note category unavailable_message internal_message
           {| method := "GET" |} {| API_KEY := Some apiKey; NODE_ENV := nodeEnv |} w)
    = Some res /\
    data_of res =
    Some (fan_out (fun symbol apiKey up =>
                     fetchWithRetry (entry_of registry) note symbol apiKey None up)
            (entry_of registry) apiKey (now w) w (Object_keys registry)) /\
    follows_policy category unavailable_message (now w)
      (fan_out (fun symbol apiKey up =>
                  fetchWithRetry (entry_of registry) note symbol apiKey None up)
         (entry_of registry) apiKey (now w) w (Object_keys registry))
      res.
Proof.
  intros Htruthy Hcat Hup. unfold retrying_handler.
  destruct (handle_request_sends_data registry
              (fun symbol apiKey up =>
                 fetchWithRetry (entry_of registry) note symbol apiKey None up)
              (entry_of registry) category unavailable_message internal_message
              {| API_KEY := Some apiKey; NODE_ENV := nodeEnv |} w apiKey
              eq_refl Htruthy (fun q => flagged q = is_failure q))
    as (qs & res & Hqs & Hflag & Hres & _ & Hshape).
  { intros symbol Hin.
    destruct (retrying_promise registry note apiKey (now w) w symbol Hin)
      as (q & info & Hown & Hq & Hstands & Hflagged).
    exists q. split; [exact Hq|]. split; [now apply Hflagged|].
    destruct Hstands as (q' & [= <-] & _ & Hmeta & _). cbn [snd] in Hmeta. rewrite Hmeta.
    now apply (plain_category_of registry category symbol). }
  exists res. split; [exact Hres|]. rewrite Hqs in *.
  now apply (shape_follows_policy category unavailable_message (now w) qs res (cors fresh)).
Qed.

Lemma api_stocks_policy (registry : JsObject string)
    (apiKey : string) (nodeEnv : option string) (w : world ApiStocks.stockprice) :
  truthy apiKey = true ->
  (forall symbol n, articulate (upstream w symbol n)) ->
  exists res,
    fst (ApiStocks.handler registry {| method := "GET" |}
           {| API_KEY := Some apiKey; NODE_ENV := nodeEnv |} w) = Some res /\
    data_of res = Some (ApiStocks.stockData registry apiKey w) /\
    follows_policy None "Unable to fetch stock data from API" (now w)
      (ApiStocks.stockData registry apiKey w) res.
Proof.
  intros Htruthy Hup. unfold ApiStocks.handler, ApiStocks.stockData.
  destruct (handle_request_sends_data registry
              (ApiStocks.fetchStockPrice registry)
              (fun ticker => Returns (own_get ticker registry)) None
              "Unable to fetch stock data from API"
              "An unexpected error occurred while fetching stock data"
              {| API_KEY := Some apiKey; NODE_ENV := nodeEnv |} w apiKey
              eq_refl Htruthy (fun q => flagged q = is_failure q))
    as (qs & res & Hqs & Hflag & Hres & _ & Hshape).
  { intros ticker Hin.
    destruct (api_stocks_promise registry apiKey (now w) w ticker) as (q & Hq & _ & _ & Hf).
    exists q. split; [exact Hq|]. split; [now apply Hf | exact I]. }
  exists res. split; [exact Hres|]. rewrite Hqs in *.
  now apply (shape_follows_policy None _ (now w) qs res (cors fresh)).
Qed.

(** C2.  For a GET with the credential present, each handler answers 503
    with the service-unavailable body, still carrying every result, when
    every result of the fan-out is a failure object, and 200 with the whole
    ordered array when at least one result is a success; the indicator
    handler then adds [grouped], which maps each category to the successful
    results of that category and has no entry for the failed ones.  The
    upstream is assumed to raise errors with non-empty messages, and the
    indicator registry to use no category name inherited from
    [Object.prototype]. *)
Theorem handler_follows_response_policy
    (indicators : JsObject Economic.info) (companies : JsObject Stocks.info)
    (tickers : JsObject string)
    (apiKey : string) (nodeEnv : option string)
    (w : world Finnhub.quote) (w' : world ApiStocks.stockprice) :
  truthy apiKey = true ->
  plain_categories (Some Economic.type) indicators = true ->
  (forall symbol n, articulate (upstream w symbol n)) ->
  (forall symbol n, articulate (upstream w' symbol n)) ->
  (exists res,
     fst (Economic.handler indicators {| method := "GET" |}
            {| API_KEY := Some apiKey; NODE_ENV := nodeEnv |} w) = Some res /\
     data_of res = Some (Economic.indicatorData indicators apiKey w) /\
     follows_policy (Some Economic.type)
       "Unable to fetch economic indicator data from API" (now w)
       (Economic.indicatorData indicators apiKey w) res) /\
  (exists res,
     fst (Stocks.handler companies {| method := "GET" |}
            {| API_KEY := Some apiKey; NODE_ENV := nodeEnv |} w) = Some res /\
     data_of res = Some (Stocks.stockData companies apiKey w) /\
     follows_policy None "Unable to fetch stock data from API" (now w)
       (Stocks.stockData companies apiKey w) res) /\
  (exists res,
     fst (ApiStocks.handler tickers {| method := "GET" |}
            {| API_KEY := Some apiKey; NODE_ENV := nodeEnv |} w') = Some res /\
     data_of res = Some (ApiStocks.stockData tickers apiKey w') /\
     follows_policy None "Unable to fetch stock data from API" (now w')
       (ApiStocks.stockData tickers apiKey w') res).
Proof.
  intros Htruthy Hcategories Hup Hup'. split; [|split].
  - now apply retrying_policy.
  - now apply retrying_policy.
  - now apply api_stocks_policy.
Qed.

(** C8.  A GET that finds no [API_KEY] in the environment is answered by
    every handler with status 500 and the configuration-error body, the
    three headers set, and no fetch is started: the list of per-symbol
    traces is empty. *)
Theorem missing_credential_short_circuits
    (indicators : JsObject Economic.info) (companies : JsObject Stocks.info)
    (tickers : JsObject string) (nodeEnv : option string)
    (w : world Finnhub.quote) (w' : world ApiStocks.stockprice) :
  Economic.handler indicators {| method := "GET" |}
    {| API_KEY := None; NODE_ENV := nodeEnv |} w
  = (Some {| headers := cors_headers; statusCode := Some 500;
             body := Some (ErrorBody "Configuration error"
                             "API key not configured. Please set API_KEY environment variable.");
             finished := true |}, []) /\
  Stocks.handler companies {| method := "GET" |}
    {| API_KEY := None; NODE_ENV := nodeEnv |} w
  = (Some {| headers := cors_headers; statusCode := Some 500;
             body := Some (ErrorBody "Configuration error"
                             "API key not configured. Please set API_KEY environment variable.");
             finished := true |}, []) /\
  ApiStocks.handler tickers {| method := "GET" |}
    {| API_KEY := None; NODE_ENV := nodeEnv |} w'
  = (Some {| headers := cors_headers; statusCode := Some 500;
             body := Some (ErrorBody "Configuration error"
                             "API key not configured. Please set API_KEY environment variable.");
             finished := true |}, []).
Proof. repeat split. Qed.

(** C10.  Whatever the method, the environment, the upstream and the
    registry, each handler sends a response, and that response carries the
    three CORS headers set at the top of the handler. *)
Theorem every_response_carries_cors_headers
    (indicators : JsObject Economic.info) (companies : JsObject Stocks.info)
    (tickers : JsObject string) (req : IncomingMessage) (env : process_env)
    (w : world Finnhub.quote) (w' : world ApiStocks.stockprice) :
  (exists res, fst (Economic.handler indicators req env w) = Some res /\
               headers res = cors_headers) /\
  (exists res, fst (Stocks.handler companies req env w) = Some res /\
               headers res = cors_headers) /\
  (exists res, fst (ApiStocks.handler tickers req env w') = Some res /\
               headers res = cors_headers).
Proof.
  split; [|split]; apply handle_request_responds.
Qed.

(** C5, amended.  A successful attempt computes [change = c - pc] and
    [changePercent = (c - pc) / pc * 100] with no guard on [pc].  When
    [pc] is 0 the quotient is not a finite number: [NaN] when the current
    value is 0 as well, an infinity otherwise.  Nothing is thrown: the fetch
    returns the success object, and the handler answers 200 with that
    object in [data]. *)
Theorem zero_previous_close_stays_a_success {V} (registry : JsObject V) (note : string)
    (category : option (V -> string)) (unavailable_message internal_message : string)
    (symbol : string) (info : V) (apiKey : string) (nodeEnv : option string)
    (w : world Finnhub.quote) (k : nat)
    (response : UpstreamResponse Finnhub.quote) (data : Finnhub.quote) :
  plain_keys registry = true ->
  plain_categories category registry = true ->
  truthy apiKey = true ->
  In (symbol, info) registry ->
  (k <= 2)%nat ->
  (forall j q, (j < k)%nat ->
     try_attempt (entry_of registry) note symbol 2 (Z.of_nat j) (upstream w symbol j)
     <> Done q) ->
  fetch (Some 5000) (upstream w symbol k) = Returns response ->
  ok response = true ->
  json response = Returns data ->
  is_zero (Finnhub.c data) && is_zero (Finnhub.t data) = false ->
  is_zero (Finnhub.pc data) = true ->
  change (figures_of data) = Fin (Finnhub.c data - Finnhub.pc data) /\
  changePercent (figures_of data)
  = js_scale (js_div (Fin (Finnhub.c data - Finnhub.pc data)) (Finnhub.pc data)) 100 /\
  changePercent (figures_of data)
  = (if is_zero (Finnhub.c data - Finnhub.pc data) then NaN else Infinity) /\
  finite (changePercent (figures_of data)) = false /\
  fst (fetchWithRetry (entry_of registry) note symbol apiKey None (upstream w symbol))
  = Returns (Some (Success symbol info (figures_of data) (clock (upstream w symbol k)))) /\
  exists res items,
    fst (retrying_handler registry note category unavailable_message internal_message
           {| method := "GET" |} {| API_KEY := Some apiKey; NODE_ENV := nodeEnv |} w)
    = Some res /\
    statusCode res = Some 200 /\
    data_of res = Some items /\
    In (Some (Success symbol info (figures_of data) (clock (upstream w symbol k)))) items.
Proof.
  intros Hkeys Hcat Htruthy Hentry Hk Hbefore Hfetch Hok Hjson Hdata Hpc.
  assert (changePercent (figures_of data)
          = (if is_zero (Finnhub.c data - Finnhub.pc data) then NaN else Infinity)) as Hpercent.
  { cbn [figures_of changePercent js_div]. rewrite Hpc.
    destruct (is_zero (Finnhub.c data - Finnhub.pc data)); reflexivity. }
  split; [reflexivity|]. split; [reflexivity|]. split; [exact Hpercent|].
  split.
  { rewrite Hpercent. destruct (is_zero (Finnhub.c data - Finnhub.pc data)); reflexivity. }
  pose proof Hkeys as Hdistinct. apply andb_true_iff in Hdistinct as [_ Hdistinct].
  pose proof (own_get_In symbol info registry Hdistinct Hentry) as Hown.
  set (q0 := Success symbol info (figures_of data) (clock (upstream w symbol k))).
  assert (fst (fetchWithRetry (entry_of registry) note symbol apiKey None (upstream w symbol))
          = Returns (Some q0)) as Hcall.
  { unfold fetchWithRetry. cbn [default].
    assert (0 <= 2) as H2 by lia.
    destruct (attempts_from_zero (entry_of registry) note symbol apiKey 2
                (upstream w symbol) H2) as (_ & _ & Hstep).
    destruct (Hstep k) as (_ & _ & Hnext).
    { apply attempts_reach; [lia | lia | exact Hbefore]. }
    assert (try_attempt (entry_of registry) note symbol 2 (Z.of_nat k) (upstream w symbol k)
            = Done q0) as Htry.
    { unfold try_attempt, entry_of. now rewrite Hfetch, Hok, Hjson, Hdata, Hown. }
    rewrite Htry in Hnext. apply Hnext. }
  split; [exact Hcall|].
  unfold retrying_handler.
  destruct (handle_request_sends_data registry
              (fun symbol apiKey up =>
                 fetchWithRetry (entry_of registry) note symbol apiKey None up)
              (entry_of registry) category unavailable_message internal_message
              {| API_KEY := Some apiKey; NODE_ENV := nodeEnv |} w apiKey
              eq_refl Htruthy (fun _ => True))
    as (qs & res & Hqs & _ & Hres & _ & Hshape).
  { intros s Hin.
    destruct (retrying_promise registry note apiKey (now w) w s Hin)
      as (q & i & Hown' & Hq & Hstands & _).
    exists q. split; [exact Hq|]. split; [exact I|].
    destruct Hstands as (q' & [= <-] & _ & Hmeta & _). cbn [snd] in Hmeta. rewrite Hmeta.
    now apply (plain_category_of registry category s). }
  assert (In (Some q0)
            (fan_out (fun symbol apiKey up =>
                        fetchWithRetry (entry_of registry) note symbol apiKey None up)
               (entry_of registry) apiKey (now w) w (Object_keys registry))) as Hin.
  { unfold fan_out. apply in_map_iff. exists symbol. split.
    - unfold settled.
      destruct (fetchWithRetry _ _ _ _ _ _) as [outcome tr]. cbn [fst] in *.
      now rewrite Hcall.
    - rewrite (Object_keys_plain registry Hkeys).
      change symbol with (fst (symbol, info)). now apply in_map. }
  assert (forallb flagged qs = false) as Hsome.
  { rewrite Hqs in Hin. apply in_map_iff in Hin as (q & [= ->] & Hin).
    apply not_true_is_false. intros Hall. rewrite forallb_forall in Hall.
    now specialize (Hall q0 Hin). }
  rewrite Hsome in Hshape. destruct Hshape as (grouped & -> & _).
  eexists. eexists. split; [exact Hres|]. split; [reflexivity|]. split; [reflexivity|].
  exact Hin.
Qed.

(** ** Why the statements carry their side conditions *)

(** A category named like an inherited property makes the grouping throw,
    and the indicator handler answer with the generic 500. *)
Example inherited_category_breaks_grouping :
  fst (Economic.handler Samples.shadowing {| method := "GET" |}
         {| API_KEY := Some "key"; NODE_ENV := Some "development" |} Samples.steady)
  = Some {| headers := cors_headers; statusCode := Some 500;
            body := Some (InternalErrorBody "Internal server error"
                            "An unexpected error occurred while fetching economic data"
                            (Some "acc[indicator.type].push is not a function"));
            finished := true |}.
Proof. reflexivity. Qed.

(** A failure object whose message were empty would not count as failed;
    no error raised by the runtime has one. *)
Example empty_message_is_not_flagged :
  exists data,
    fst (ApiStocks.handler ApiStocks.COMPANIES {| method := "GET" |}
           {| API_KEY := Some "key"; NODE_ENV := None |} Samples.mute)
    = Some {| headers := cors_headers; statusCode := Some 200;
              body := Some (SuccessBody true Samples.stamp data None);
              finished := true |} /\
    Forall (fun item => exists q, item = Some q /\ is_failure q = true) data.
Proof.
  eexists. split; [reflexivity|].
  repeat constructor; eexists; split; reflexivity.
Qed.

(** ** Examples: the statements at concrete inputs *)

Lemma fetch_attempts_and_backoff_witness :
  0 <= default 2 None /\
  (requests (snd (Economic.fetchIndicator Economic.INDICATORS "^GSPC" "key" None
                    Samples.three_failures)) <= 3)%nat /\
  nth_error (snd (Economic.fetchIndicator Economic.INDICATORS "^GSPC" "key" None
                    Samples.three_failures)) 1
  = Some (Sleep 500).
Proof.
  assert (0 <= default 2 None) as Hr by (cbn; lia).
  destruct (fetch_attempts_and_backoff (entry_of Economic.INDICATORS) "" "^GSPC" "key"
              None Samples.three_failures Hr) as (Hmade & Hdefault & Hsteps).
  split; [exact Hr|]. split; [exact Hdefault|].
  destruct (Hsteps 0%nat) as (_ & _ & Hwait); [lia|].
  destruct (Hwait (mkError "fetch failed")) as [Hsleep _];
    [reflexivity | cbn; lia | exact Hsleep].
Defined.

Lemma rate_limit_waits_and_retries_witness :
  0 <= default 2 None /\
  Economic.fetchIndicator Economic.INDICATORS "^GSPC" "key" None Samples.two_limits_then_quote
  = (Returns (Some (Success "^GSPC"
                      {| Economic.name := "S&P 500"; Economic.type := "Index";
                         Economic.description := "US Large Cap Index" |}
                      (figures_of (Samples.quote 150 148 1704209400)) Samples.stamp)),
     [quote_request "^GSPC" "key"; Sleep 1000;
      quote_request "^GSPC" "key"; Sleep 2000;
      quote_request "^GSPC" "key"]).
Proof.
  assert (0 <= default 2 None) as Hr by (cbn; lia).
  split; [exact Hr|].
  destruct (rate_limit_waits_and_retries (entry_of Economic.INDICATORS) "" "^GSPC" "key"
              None Samples.two_limits_then_quote Hr) as [_ Hcase].
  eapply Hcase; reflexivity.
Defined.

Lemma exhausted_fetch_throws_last_error_witness :
  0 <= default 2 None /\
  (forall k q, Z.of_nat k <= default 2 None ->
     try_attempt (entry_of Economic.INDICATORS) "" "^GSPC" (default 2 None) (Z.of_nat k)
       (Samples.three_failures k) <> Done q) /\
  fst (Economic.fetchIndicator Economic.INDICATORS "^GSPC" "key" None Samples.three_failures)
  = Throws (mkError "No data available for ^GSPC").
Proof.
  assert (0 <= default 2 None) as Hr by (cbn; lia).
  assert (forall k q, Z.of_nat k <= default 2 None ->
            try_attempt (entry_of Economic.INDICATORS) "" "^GSPC" (default 2 None)
              (Z.of_nat k) (Samples.three_failures k) <> Done q) as Hfail.
  { intros [|[|k]] q _; cbn; discriminate. }
  split; [exact Hr|]. split; [exact Hfail|].
  destruct (exhausted_fetch_throws_last_error (entry_of Economic.INDICATORS) "" "^GSPC" "key"
              None Samples.three_failures) as [_ Hlast].
  destruct (Hlast Hr Hfail) as (e & Htry & Hthrows & _).
  unfold Economic.fetchIndicator. rewrite Hthrows. f_equal.
  vm_compute in Htry. now inversion Htry.
Defined.



Lemma retrying_requests_are_time_bounded_witness :
  0 <= default 2 None /\
  5000 < latency (Samples.slow_then_quote 0%nat) /\
  time_bounded 5000
    (snd (Stocks.fetchStockPrice Stocks.COMPANIES "AAPL" "key" None Samples.slow_then_quote)) /\
  nth_error
    (snd (Stocks.fetchStockPrice Stocks.COMPANIES "AAPL" "key" None Samples.slow_then_quote)) 1
  = Some (Sleep 500).
Proof.
  assert (0 <= default 2 None) as Hr by (cbn; lia).
  assert (5000 < latency (Samples.slow_then_quote 0%nat)) as Hslow by (cbn; lia).
  destruct (retrying_requests_are_time_bounded (entry_of Stocks.COMPANIES)
              " (market may be closed or invalid ticker)" "AAPL" "key" None
              Samples.slow_then_quote Hr) as [Hbounded Hslow_fails].
  split; [exact Hr|]. split; [exact Hslow|]. split; [exact Hbounded|].
  destruct (Hslow_fails 0%nat) as (_ & Hwait & _); [vm_compute; lia | exact Hslow |].
  destruct Hwait as [Hsleep _]; [cbn; lia | exact Hsleep].
Defined.

(** C4, as stated, fails on [src/api/stocks.js]: its only request carries
    no abort timer, and an answer that takes a minute is still used. *)
Lemma api_stocks_request_has_no_time_bound :
  ~ time_bounded 5000
      (snd (ApiStocks.fetchStockPrice ApiStocks.COMPANIES "AAPL" "key" Samples.sluggish)) /\
  5000 < latency (Samples.sluggish 0%nat) /\
  ApiStocks.fetchStockPrice ApiStocks.COMPANIES "AAPL" "key" Samples.sluggish
  = (Returns (Some (Success "AAPL" (Some "Apple Inc.") 150%Q Samples.stamp)),
     [Request "https://api.api-ninjas.com/v1/stockprice?ticker=AAPL"
        [("X-Api-Key", "key")] None]).
Proof.
  split; [|split; [cbn; lia | reflexivity]].
  intros Hbounded. inversion Hbounded as [|ev tr Hev _]. discriminate Hev.
Qed.



Lemma handler_follows_response_policy_witness :
  truthy "key" = true /\
  plain_categories (Some Economic.type) Economic.INDICATORS = true /\
  (forall symbol n, articulate (upstream Samples.choppy symbol n)) /\
  (forall symbol n, articulate (upstream Samples.down symbol n)) /\
  (exists res,
     fst (Economic.handler Economic.INDICATORS {| method := "GET" |}
            {| API_KEY := Some "key"; NODE_ENV := None |} Samples.choppy) = Some res /\
     follows_policy (Some Economic.type)
       "Unable to fetch economic indicator data from API" (now Samples.choppy)
       (Economic.indicatorData Economic.INDICATORS "key" Samples.choppy) res) /\
  (exists res,
     fst (ApiStocks.handler ApiStocks.COMPANIES {| method := "GET" |}
            {| API_KEY := Some "key"; NODE_ENV := None |} Samples.down) = Some res /\
     follows_policy None "Unable to fetch stock data from API" (now Samples.down)
       (ApiStocks.stockData ApiStocks.COMPANIES "key" Samples.down) res).
Proof.
  assert (truthy "key" = true) as H1 by reflexivity.
  assert (plain_categories (Some Economic.type) Economic.INDICATORS = true) as H2
    by reflexivity.
  assert (forall symbol n, articulate (upstream Samples.choppy symbol n)) as H3.
  { intros symbol n. unfold articulate. cbn.
    destruct (symbol =? "^VIX")%string; cbn; [exact I | discriminate]. }
  assert (forall symbol n, articulate (upstream Samples.down symbol n)) as H4.
  { intros symbol n. unfold articulate. cbn. discriminate. }
  destruct (handler_follows_response_policy Economic.INDICATORS Stocks.COMPANIES
              ApiStocks.COMPANIES "key" None Samples.choppy Samples.down H1 H2 H3 H4)
    as ((res & Hres & _ & Hpolicy) & _ & (res' & Hres' & _ & Hpolicy')).
  repeat (split; [assumption|]). split.
  - exists res. split; assumption.
  - exists res'. split; assumption.
Defined.

Lemma zero_previous_close_stays_a_success_witness :
  plain_keys Economic.INDICATORS = true /\
  plain_categories (Some Economic.type) Economic.INDICATORS = true /\
  truthy "key" = true /\
  is_zero (Finnhub.pc (Samples.quote 13 0 1704209400)) = true /\
  changePercent (figures_of (Samples.quote 13 0 1704209400)) = Infinity /\
  fst (Economic.fetchIndicator Economic.INDICATORS "^VIX" "key" None
         (upstream Samples.choppy "^VIX"))
  = Returns (Some (Success "^VIX"
                     {| Economic.name := "CBOE Volatility Index";
                        Economic.type := "Volatility";
                        Economic.description := "Market Fear Gauge" |}
                     (figures_of (Samples.quote 13 0 1704209400)) Samples.stamp)) /\
  exists res,
    fst (Economic.handler Economic.INDICATORS {| method := "GET" |}
           {| API_KEY := Some "key"; NODE_ENV := None |} Samples.choppy) = Some res /\
    statusCode res = Some 200.
Proof.
  assert (plain_keys Economic.INDICATORS = true) as H1 by reflexivity.
  assert (plain_categories (Some Economic.type) Economic.INDICATORS = true) as H2
    by reflexivity.
  assert (truthy "key" = true) as H3 by reflexivity.
  assert (is_zero (Finnhub.pc (Samples.quote 13 0 1704209400)) = true) as H4 by reflexivity.
  destruct (zero_previous_close_stays_a_success Economic.INDICATORS ""
              (Some Economic.type)
              "Unable to fetch economic indicator data from API"
              "An unexpected error occurred while fetching economic data"
              "^VIX"
              {| Economic.name := "CBOE Volatility Index"; Economic.type := "Volatility";
                 Economic.description := "Market Fear Gauge" |}
              "key" None Samples.choppy 0%nat
              {| status := 200; text := None;
                 json := Returns (Samples.quote 13 0 1704209400) |}
              (Samples.quote 13 0 1704209400) H1 H2 H3)
    as (_ & _ & Hpercent & _ & Hcall & res & items & Hres & Hstatus & _);
    try reflexivity.
  - cbn. tauto.
  - lia.
  - intros j q Hj. lia.
  - repeat (split; [assumption|]). exists res. split; assumption.
Defined.


(** C5, as stated, fails when the previous close is 0 and the current value
    is not: the fetch succeeds with an infinite [changePercent], not [NaN]. *)
Lemma zero_previous_close_can_give_infinity :
  is_zero (Finnhub.pc (Samples.quote 13 0 1704209400)) = true /\
  fst (Economic.fetchIndicator Economic.INDICATORS "^VIX" "key" None
         (upstream Samples.choppy "^VIX"))
  = Returns (Some (Success "^VIX"
                     {| Economic.name := "CBOE Volatility Index";
                        Economic.type := "Volatility";
                        Economic.description := "Market Fear Gauge" |}
                     (figures_of (Samples.quote 13 0 1704209400)) Samples.stamp)) /\
  changePercent (figures_of (Samples.quote 13 0 1704209400)) = Infinity /\
  changePercent (figures_of (Samples.quote 13 0 1704209400)) <> NaN.
Proof.
  split; [reflexivity|]. split; [reflexivity|]. split; [reflexivity|]. discriminate.
Qed.

(** * Further properties of the handlers and fetchers *)

(** ** Branches of the handler

    The statements of this section are about [handle_request], the text the
    four [handler] functions share, so they hold for each of them, whatever
    its registry and fetcher. *)

Section HandlerBranches.
Context {V M F P : Type}.
Variable REGISTRY : JsObject V.
Variable fetcher :
  string -> string -> (nat -> exchange P) ->
  completion (option (QuoteResult M F)) * list event.
Variable describe : string -> completion M.
Variable category : option (M -> string).
Variables unavailable_message internal_message : string.

Local Abbreviation serve :=
  (handle_request REGISTRY fetcher describe category unavailable_message internal_message).

Lemma respond_shape timestamp joined (res sent : ServerResponse (QuoteResult M F)) :
  respond category unavailable_message timestamp joined res = Returns sent ->
  finished sent = true /\
  (statusCode sent = Some 200 \/ statusCode sent = Some 503) /\
  is_internal_error sent = false /\ body sent <> None.
Proof.
  unfold respond. destruct joined as [data|e]; [|discriminate]. cbn [bind].
  destruct (every_error data) as [[|]|e]; cbn [bind]; [| |discriminate].
  - intros [= <-]. cbn. repeat split; auto; discriminate.
  - destruct (match category with
              | Some type => do g <- reduce type data []; Returns (Some g)
              | None => Returns None
              end) as [grouped|e]; cbn [bind]; [|discriminate].
    destruct (count_successful data); cbn [bind]; [|discriminate].
    intros [= <-]. cbn. repeat split; auto; discriminate.
Qed.

(** The traces of a fan-out: what each symbol's fetch did, in key order. *)
Lemma handle_request_traces req env w apiKey :
  method req = "GET" -> API_KEY env = Some apiKey -> truthy apiKey = true ->
  snd (serve req env w)
  = map (fun symbol => snd (fetcher symbol apiKey (upstream w symbol)))
      (Object_keys REGISTRY).
Proof.
  intros Hget Hkey Htruthy. unfold handle_request.
  rewrite Hget, Hkey, Htruthy. cbn [String.eqb Ascii.eqb Bool.eqb negb].
  assert (map snd (map (settled fetcher describe apiKey (now w) w) (Object_keys REGISTRY))
          = map (fun symbol => snd (fetcher symbol apiKey (upstream w symbol)))
              (Object_keys REGISTRY)) as Htraces.
  { rewrite map_map. apply map_ext. intros symbol. unfold settled.
    now destruct (fetcher symbol apiKey (upstream w symbol)). }
  now destruct (Promise_all _ _); cbn [snd].
Qed.

(** X1.  A request whose method is not GET never reaches the credential
    check or the upstream: OPTIONS is answered 200 without a body, any other
    method 405 with the method-not-allowed body, whatever the environment
    holds, and no fetch is started. *)
Theorem other_methods_stop_at_the_gate req env w :
  method req <> "GET" ->
  serve req env w
  = (Some (if (method req =? "OPTIONS")%string
           then {| headers := cors_headers; statusCode := Some 200;
                   body := None; finished := true |}
           else {| headers := cors_headers; statusCode := Some 405;
                   body := Some (ErrorBody "Method not allowed"
                                   "Only GET requests are supported");
                   finished := true |}),
     []).
Proof.
  intros Hmethod. unfold handle_request.
  destruct (method req =? "OPTIONS")%string; [reflexivity|].
  destruct (String.eqb_spec (method req) "GET"); [contradiction | reflexivity].
Qed.

(** X2.  A GET whose [API_KEY] is undefined or the empty string is answered
    with the 500 configuration error, and no fetch is started. *)
Theorem falsy_credential_is_a_configuration_error req env w :
  method req = "GET" ->
  truthy_opt (API_KEY env) = false ->
  serve req env w
  = (Some {| headers := cors_headers; statusCode := Some 500;
             body := Some (ErrorBody "Configuration error"
                             "API key not configured. Please set API_KEY environment variable.");
             finished := true |}, []).
Proof.
  intros Hget Hkey. unfold handle_request. rewrite Hget.
  cbn [String.eqb Ascii.eqb Bool.eqb negb].
  destruct (API_KEY env) as [apiKey|]; [|reflexivity].
  cbn [truthy_opt] in Hkey. now rewrite Hkey.
Qed.

(** X3.  The text of an unexpected error leaves the process only in
    development: the response has a [details] property exactly when it is
    the generic 500 and [NODE_ENV] is ["development"]. *)
Theorem details_only_in_development req env w :
  exists res,
    fst (serve req env w) = Some res /\
    (details_of res <> None <->
     is_internal_error res = true /\ NODE_ENV env = Some "development").
Proof.
  destruct (handle_request_responds REGISTRY fetcher describe category
              unavailable_message internal_message req env w) as (res & Hres & _).
  exists res. split; [exact Hres|].
  revert Hres. unfold handle_request.
  destruct (method req =? "OPTIONS")%string.
  { intros [= <-]. cbn. split; [congruence | intros [? _]; discriminate]. }
  destruct (negb (method req =? "GET")%string).
  { intros [= <-]. cbn. split; [congruence | intros [? _]; discriminate]. }
  destruct (API_KEY env) as [apiKey|];
    [|intros [= <-]; cbn; split; [congruence | intros [? _]; discriminate]].
  destruct (truthy apiKey);
    [|intros [= <-]; cbn; split; [congruence | intros [? _]; discriminate]].
  destruct (Promise_all _ _) as [joined|]; [|discriminate]. cbn [fst].
  destruct (respond _ _ _ _ _) as [sent|error] eqn:Hsent.
  - intros [= <-]. apply respond_shape in Hsent as (_ & _ & Hinternal & _).
    unfold details_of, is_internal_error in *.
    destruct (body sent) as [[| | |]|]; try discriminate;
      (split; [congruence | intros [? _]; discriminate]).
  - intros [= <-]. unfold internal_error, details_of, is_internal_error. cbn.
    destruct (NODE_ENV env) as [mode|]; [|split; [congruence | intros [_ ?]; discriminate]].
    destruct (String.eqb_spec mode "development") as [->|Hne].
    + split; [intros _; split; reflexivity | intros _; discriminate].
    + assert (match mode with
              | "development" => Some (message error)
              | _ => None
              end = None) as ->.
      { revert Hne. clear.
        repeat (match goal with
                | |- context [match ?m with EmptyString => _ | String _ _ => _ end] =>
                    destruct m as [|[[] [] [] [] [] [] [] []] ?]; try reflexivity
                end).
        congruence. }
      split; [congruence | intros [_ [= ->]]; contradiction].
Qed.

(** X4.  Every request is answered, the answer is finished, its status is
    200, 405, 500 or 503, and it lacks a body exactly for OPTIONS. *)
Theorem responses_are_final req env w :
  exists res,
    fst (serve req env w) = Some res /\
    finished res = true /\
    known_status (statusCode res) /\
    (body res = None <-> method req = "OPTIONS").
Proof.
  destruct (handle_request_responds REGISTRY fetcher describe category
              unavailable_message internal_message req env w) as (res & Hres & _).
  exists res. split; [exact Hres|].
  revert Hres. unfold handle_request, known_status.
  destruct (String.eqb_spec (method req) "OPTIONS") as [Hopt|Hopt].
  { intros [= <-]. cbn. intuition auto. }
  destruct (negb (method req =? "GET")%string).
  { intros [= <-]. cbn. intuition (auto; discriminate). }
  destruct (API_KEY env) as [apiKey|];
    [|intros [= <-]; cbn; intuition (auto; discriminate)].
  destruct (truthy apiKey); [|intros [= <-]; cbn; intuition (auto; discriminate)].
  destruct (Promise_all _ _) as [joined|]; [|discriminate]. cbn [fst].
  destruct (respond _ _ _ _ _) as [sent|error] eqn:Hsent.
  - intros [= <-]. apply respond_shape in Hsent as (Hfin & Hstatus & _ & Hbody).
    intuition auto.
  - intros [= <-]. cbn. intuition (auto; discriminate).
Qed.
End HandlerBranches.

(** ** More on the retrying fetcher *)

Section RetryMore.
Context {M : Type}.
Variable describe : string -> completion M.
Variable note : string.
Variables symbol apiKey : string.
Variable r : Z.
Variable up : nat -> exchange Finnhub.quote.

Local Abbreviation run range := (attempts describe note symbol apiKey r up range).
Local Abbreviation tried k := (try_attempt describe note symbol r (Z.of_nat k) (up k)).
Local Abbreviation request := (quote_request symbol apiKey).

Lemma attempts_requests_are (range : list nat) (ev : event) :
  In ev (snd (run range)) -> is_request ev = true -> ev = request.
Proof.
  induction range as [|k rest IH]; cbn [attempts]; [intros []|].
  destruct (tried k) as [q|ms|e].
  - intros [<-|[]] _. reflexivity.
  - destruct (run rest) as [res tr]. cbn [snd] in *.
    intros [<-|[<-|Hin]] Hreq; [reflexivity | discriminate | now apply IH].
  - destruct (Z.of_nat k =? r).
    + intros [<-|[]] _. reflexivity.
    + destruct (run rest) as [res tr]. cbn [snd] in *.
      intros [<-|[<-|Hin]] Hreq; [reflexivity | discriminate | now apply IH].
Qed.

(** One wait between two consecutive requests, and the wait after attempt
    [a + j] is one of the two the loop can choose there. *)
Lemma attempts_waits (n a : nat) :
  Z.of_nat (a + n) = r + 1 ->
  ((0 < n)%nat ->
   S (length (waits (snd (run (seq a n))))) = requests (snd (run (seq a n)))) /\
  forall j ms, nth_error (waits (snd (run (seq a n)))) j = Some ms ->
    ms = 500 * 2 ^ Z.of_nat (a + j) \/ ms = 1000 * (Z.of_nat (a + j) + 1).
Proof.
  revert a. induction n as [|n IH]; intros a Hend.
  - split; [lia|]. intros [|j] ms; discriminate.
  - destruct (IH (S a)) as (Hcount & Hwaits); [lia|].
    cbn [seq attempts].
    destruct (tried a) as [q|ms|e] eqn:Htry.
    + split; [reflexivity|]. intros [|j] ms; discriminate.
    + destruct (try_attempt_continue describe note symbol r up a ms Htry) as [-> Hlt].
      destruct (run (seq (S a) n)) as [res tr]. cbn [snd] in *.
      change (waits (request :: Sleep (1000 * (Z.of_nat a + 1)) :: tr))
        with (1000 * (Z.of_nat a + 1) :: waits tr).
      change (requests (request :: Sleep (1000 * (Z.of_nat a + 1)) :: tr))
        with (S (requests tr)).
      split.
      * intros _. cbn [length]. f_equal. apply Hcount. lia.
      * intros [|j] ms Hnth.
        -- injection Hnth as <-. right. f_equal. lia.
        -- cbn [nth_error] in Hnth. apply Hwaits in Hnth.
           replace (a + S j)%nat with (S a + j)%nat by lia. exact Hnth.
    + destruct (Z.eqb_spec (Z.of_nat a) r) as [Hlast|Hmore].
      * split; [reflexivity|]. intros [|j] ms; discriminate.
      * destruct (run (seq (S a) n)) as [res tr]. cbn [snd] in *.
        change (waits (request :: Sleep (500 * 2 ^ Z.of_nat a) :: tr))
          with (500 * 2 ^ Z.of_nat a :: waits tr).
        change (requests (request :: Sleep (500 * 2 ^ Z.of_nat a) :: tr))
          with (S (requests tr)).
        split.
        -- intros _. cbn [length]. f_equal. apply Hcount. lia.
        -- intros [|j] ms Hnth.
           ++ injection Hnth as <-. left. do 2 f_equal. lia.
           ++ cbn [nth_error] in Hnth. apply Hwaits in Hnth.
              replace (a + S j)%nat with (S a + j)%nat by lia. exact Hnth.
Qed.

(** The call returns exactly what its first returning attempt returns. *)
Lemma attempts_return_iff (q : QuoteResult M figures) :
  0 <= r ->
  (fst (run (attempt_range r)) = Returns (Some q) <->
   exists k, Z.of_nat k <= r /\ tried k = Done q /\
             forall j q', (j < k)%nat -> tried j <> Done q').
Proof.
  intros Hr. destruct (attempts_from_zero describe note symbol apiKey r up Hr)
    as (Hle & Hpos & Hstep).
  split.
  - intros Hret.
    remember (requests (snd (run (attempt_range r)))) as n eqn:Hn.
    destruct n as [|k]; [lia|].
    exists k. destruct (Hstep k) as (Hk & _ & Hnext); [lia|].
    split; [exact Hk|].
    assert (forall j q', (j < k)%nat -> tried j <> Done q') as Hbefore.
    { intros j q' Hj Hdone. destruct (Hstep j) as (_ & _ & Hj'); [lia|].
      rewrite Hdone in Hj'. destruct Hj' as [_ Hcount]. lia. }
    split; [|exact Hbefore].
    destruct (tried k) as [q'|ms|e].
    + destruct Hnext as [Hq _]. rewrite Hq in Hret. now inversion Hret.
    + destruct Hnext as (_ & _ & _ & Hmore). lia.
    + destruct (Z.of_nat k =? r).
      * destruct Hnext as [Hthrows _]. rewrite Hthrows in Hret. discriminate.
      * destruct Hnext as (_ & _ & Hmore). lia.
  - intros (k & Hk & Hdone & Hbefore).
    destruct (Hstep k) as (_ & _ & Hnext).
    { apply attempts_reach; assumption. }
    rewrite Hdone in Hnext. apply Hnext.
Qed.

(** The call throws exactly when no attempt returns, and then it throws
    what the last attempt caught. *)
Lemma attempts_throw_iff (e : Error) :
  0 <= r ->
  (fst (run (attempt_range r)) = Throws e <->
   tried (Z.to_nat r) = Caught e /\
   forall j q', Z.of_nat j <= r -> tried j <> Done q').
Proof.
  intros Hr. destruct (attempts_from_zero describe note symbol apiKey r up Hr)
    as (Hle & Hpos & Hstep).
  split.
  - intros Hthrows.
    remember (requests (snd (run (attempt_range r)))) as n eqn:Hn.
    destruct n as [|k]; [lia|].
    destruct (Hstep k) as (Hk & _ & Hnext); [lia|].
    assert (forall j q', (j < k)%nat -> tried j <> Done q') as Hbefore.
    { intros j q' Hj Hdone. destruct (Hstep j) as (_ & _ & Hj'); [lia|].
      rewrite Hdone in Hj'. destruct Hj' as [_ Hcount]. lia. }
    destruct (tried k) as [q'|ms|e'] eqn:Htry.
    + destruct Hnext as [Hq _]. rewrite Hq in Hthrows. discriminate.
    + destruct Hnext as (_ & _ & _ & Hmore). lia.
    + destruct (Z.eqb_spec (Z.of_nat k) r) as [Hlast|Hmore].
      * destruct Hnext as [He _]. rewrite He in Hthrows. injection Hthrows as ->.
        assert (Z.to_nat r = k) as -> by lia.
        split; [exact Htry|].
        intros j q' Hj. destruct (Nat.eq_dec j k) as [->|Hne].
        -- rewrite Htry. discriminate.
        -- apply Hbefore. lia.
      * destruct Hnext as (_ & _ & Hmore'). lia.
  - intros [Hlast Hnone].
    destruct (Hstep (Z.to_nat r)) as (_ & _ & Hnext).
    { apply attempts_reach; [exact Hr | lia |]. intros j q' Hj. apply Hnone. lia. }
    rewrite Hlast in Hnext.
    destruct (Z.eqb_spec (Z.of_nat (Z.to_nat r)) r); [apply Hnext | lia].
Qed.
End RetryMore.

Section FetcherBehaviour.
Context {M : Type}.
Variable describe : string -> completion M.
Variable note : string.
Variables symbol apiKey : string.
Variable retries : option Z.
Variable up : nat -> exchange Finnhub.quote.

Local Abbreviation r := (default 2 retries).
Local Abbreviation call := (fetchWithRetry describe note symbol apiKey retries up).
Local Abbreviation tried k := (try_attempt describe note symbol r (Z.of_nat k) (up k)).
Local Abbreviation request := (quote_request symbol apiKey).

(** X5.  A retrying fetch waits exactly once between two consecutive
    requests and never after the last one; the wait after attempt [j] is
    the backoff [500 * 2^j] or the rate-limit pause [1000 * (j + 1)];
    with at most five retries the waits of a call never get shorter; and a
    call with the default number of retries sleeps 3000 ms at most. *)
Theorem waits_between_requests :
  0 <= r ->
  S (length (waits (snd call))) = requests (snd call) /\
  (forall j ms, nth_error (waits (snd call)) j = Some ms ->
     ms = 500 * 2 ^ Z.of_nat j \/ ms = 1000 * (Z.of_nat j + 1)) /\
  (r <= 5 ->
   forall j a b, nth_error (waits (snd call)) j = Some a ->
     nth_error (waits (snd call)) (S j) = Some b -> a <= b) /\
  fold_right Z.add 0
    (waits (snd (fetchWithRetry describe note symbol apiKey None up))) <= 3000.
Proof.
  intros Hr. unfold fetchWithRetry, attempt_range.
  destruct (attempts_waits describe note symbol apiKey r up (Z.to_nat (r + 1)) 0)
    as (Hcount & Hwaits); [lia|].
  pose proof (attempts_from_zero describe note symbol apiKey r up Hr) as (Hle & _ & _).
  unfold attempt_range in Hle.
  specialize (Hcount ltac:(lia)).
  split; [exact Hcount|]. split; [exact Hwaits|]. split.
  - intros Hfive j a b Ha Hb.
    assert (S j < length (waits (snd (attempts describe note symbol apiKey r up
                                         (seq 0 (Z.to_nat (r + 1)))))))%nat as Hj.
    { apply nth_error_Some. rewrite Hb. discriminate. }
    apply Hwaits in Ha. apply Hwaits in Hb. cbn [Nat.add] in Ha, Hb.
    assert (j <= 3)%nat as Hsmall by lia.
    destruct j as [|[|[|[|j]]]]; [| | | |lia];
      cbn in Ha, Hb; lia.
  - cbn [default].
    destruct (attempts_waits describe note symbol apiKey 2 up 3 0)
      as (Hcount2 & Hwaits2); [lia|].
    destruct (attempts_from_zero describe note symbol apiKey 2 up) as (Hle2 & _ & _);
      [lia|].
    unfold attempt_range in Hle2. change (Z.to_nat (2 + 1)) with 3%nat in *.
    specialize (Hcount2 ltac:(lia)).
    destruct (waits (snd (attempts describe note symbol apiKey 2 up (seq 0 3))))
      as [|a [|b [|c ws]]]; cbn [fold_right].
    + lia.
    + specialize (Hwaits2 0%nat a eq_refl). cbn in Hwaits2. lia.
    + pose proof (Hwaits2 0%nat a eq_refl) as Ha.
      pose proof (Hwaits2 1%nat b eq_refl) as Hb. cbn in Ha, Hb. lia.
    + cbn [length] in Hcount2. lia.
Qed.

(** X6.  A retrying fetch returns exactly what its first returning attempt
    returns, and it throws exactly when none of the attempts
    [0 .. retries] returns; what it throws is then the error caught on
    attempt [retries]. *)
Theorem outcome_is_the_first_returning_attempt :
  0 <= r ->
  (forall q,
     fst (fetchWithRetry describe note symbol apiKey retries up) = Returns (Some q) <->
     exists k, Z.of_nat k <= r /\ tried k = Done q /\
               forall j q', (j < k)%nat -> tried j <> Done q') /\
  (forall e,
     fst (fetchWithRetry describe note symbol apiKey retries up) = Throws e <->
     tried (Z.to_nat r) = Caught e /\
     forall j q', Z.of_nat j <= r -> tried j <> Done q').
Proof.
  intros Hr. unfold fetchWithRetry. split.
  - intros q. now apply attempts_return_iff.
  - intros e. now apply attempts_throw_iff.
Qed.

(** X7.  Every request of a retrying fetch is the same one: the quote URL
    of the symbol with the key as token, the [Accept] header and the
    five-second abort timer; no request differs between attempts. *)
Theorem every_attempt_sends_the_same_request (ev : event) :
  In ev (snd call) -> is_request ev = true ->
  ev = Request ("https://finnhub.io/api/v1/quote?symbol=" ++ symbol ++ "&token=" ++ apiKey)
         [("Accept", "application/json")] (Some 5000).
Proof.
  unfold fetchWithRetry. apply attempts_requests_are.
Qed.
End FetcherBehaviour.

(** X8.  A symbol that is neither a key of the registry nor a name
    inherited from [Object.prototype] uses up every attempt: the registry
    lookup yields [undefined], so each answered quote makes the [try] block
    read a property of [undefined], the [TypeError] is caught like an
    upstream failure, and after [retries + 1] requests the call throws
    it. *)
Theorem unregistered_symbol_exhausts_retries {V} (registry : JsObject V)
    (note symbol apiKey : string) (retries : option Z)
    (up : nat -> exchange Finnhub.quote) :
  0 <= default 2 retries ->
  own_get symbol registry = None ->
  inherited symbol = false ->
  (forall k, Z.of_nat k <= default 2 retries -> exists data, delivers_quote (up k) data) ->
  fst (fetchWithRetry (entry_of registry) note symbol apiKey retries up)
  = Throws (mkError "Cannot read properties of undefined (reading 'name')") /\
  requests (snd (fetchWithRetry (entry_of registry) note symbol apiKey retries up))
  = Z.to_nat (default 2 retries + 1).
Proof.
  intros Hr Hmissing _ Hquotes. unfold fetchWithRetry.
  set (r := default 2 retries) in *.
  assert (forall k, Z.of_nat k <= r ->
            try_attempt (entry_of registry) note symbol r (Z.of_nat k) (up k)
            = Caught (mkError "Cannot read properties of undefined (reading 'name')"))
    as Hcaught.
  { intros k Hk. destruct (Hquotes k Hk) as (data & response & Hfetch & Hok & Hjson & Hdata).
    unfold try_attempt, entry_of. now rewrite Hfetch, Hok, Hjson, Hdata, Hmissing. }
  split.
  - apply attempts_throw_iff; [exact Hr|]. split.
    + apply Hcaught. lia.
    + intros j q' Hj. rewrite (Hcaught j Hj). discriminate.
  - destruct (attempts_from_zero (entry_of registry) note symbol apiKey r up Hr)
      as (Hle & _ & _).
    assert (Z.to_nat r <
            requests (snd (attempts (entry_of registry) note symbol apiKey r up
                             (attempt_range r))))%nat.
    { apply attempts_reach; [exact Hr | lia |].
      intros j q' Hj. rewrite (Hcaught j); [discriminate | lia]. }
    lia.
Qed.

(** ** More on the handlers *)

Section FanOutFacts.
Context {V M F P : Type}.
Variable REGISTRY : JsObject V.
Variable fetcher :
  string -> string -> (nat -> exchange P) ->
  completion (option (QuoteResult M F)) * list event.
Variable describe : string -> completion M.
Variable category : option (M -> string).
Variables unavailable_message internal_message : string.

Local Abbreviation serve :=
  (handle_request REGISTRY fetcher describe category unavailable_message internal_message).

(** What a fan-out needs: every promise fulfils with an object whose
    category, if the handler groups, is not an inherited name. *)
Local Abbreviation sound_promises :=
  (forall apiKey (w : world P) symbol, In symbol (Object_keys REGISTRY) ->
     exists q, fst (settled fetcher describe apiKey (now w) w symbol) = Returns (Some q) /\
               match category with
               | Some type => inherited (type (meta_of q)) = false
               | None => True
               end).

Lemma fan_out_aligned (apiKey timestamp : string) (w : world P) (symbols : list string)
    (R : string -> option (QuoteResult M F) -> Prop) :
  (forall symbol, In symbol symbols ->
     exists item, fst (settled fetcher describe apiKey timestamp w symbol) = Returns item /\
                  R symbol item) ->
  Forall2 R symbols (fan_out fetcher describe apiKey timestamp w symbols).
Proof.
  intros H. unfold fan_out. apply Forall2_map_r_In. intros symbol Hin.
  destruct (H symbol Hin) as (item & -> & HR). exact HR.
Qed.

Lemma handle_request_data req env w apiKey :
  method req = "GET" -> API_KEY env = Some apiKey -> truthy apiKey = true ->
  sound_promises ->
  exists res,
    fst (serve req env w) = Some res /\
    data_of res = Some (fan_out fetcher describe apiKey (now w) w (Object_keys REGISTRY)) /\
    is_internal_error res = false.
Proof.
  intros Hget Hkey Htruthy Hgood.
  assert (req = {| method := "GET" |}) as -> by (destruct req; cbn in *; now subst).
  destruct (handle_request_sends_data REGISTRY fetcher describe category
              unavailable_message internal_message env w apiKey Hkey Htruthy
              (fun _ => True)) as (qs & res & Hqs & _ & Hres & _ & Hshape).
  { intros symbol Hin. destruct (Hgood apiKey w symbol Hin) as (q & Hq & Hc).
    exists q. auto. }
  exists res. split; [exact Hres|].
  destruct (forallb flagged qs).
  - subst res. split; reflexivity.
  - destruct Hshape as (grouped & -> & _). split; reflexivity.
Qed.

Lemma handle_request_never_internal req env w :
  sound_promises ->
  exists res, fst (serve req env w) = Some res /\ is_internal_error res = false.
Proof.
  intros Hgood.
  destruct (String.eqb_spec (method req) "GET") as [Hget|Hother].
  - destruct (API_KEY env) as [apiKey|] eqn:Hkey.
    + destruct (truthy apiKey) eqn:Htruthy.
      * destruct (handle_request_data req env w apiKey Hget Hkey Htruthy Hgood)
          as (res & Hres & _ & Hnot). eauto.
      * unfold handle_request. rewrite Hget, Hkey, Htruthy.
        eexists. split; reflexivity.
    + unfold handle_request. rewrite Hget, Hkey. eexists. split; reflexivity.
  - unfold handle_request.
    destruct (method req =? "OPTIONS")%string; [eexists; split; reflexivity|].
    destruct (String.eqb_spec (method req) "GET"); [contradiction|].
    eexists. split; reflexivity.
Qed.

Lemma handle_request_order_free req env w (order : list nat) :
  (forall apiKey (w : world P) symbol, In symbol (Object_keys REGISTRY) ->
     exists item, fst (settled fetcher describe apiKey (now w) w symbol) = Returns item) ->
  serve req env {| now := now w; upstream := upstream w; settles_first := order |}
  = serve req env w.
Proof.
  intros Hgood.
  destruct (String.eqb_spec (method req) "GET") as [Hget|Hother].
  - destruct (API_KEY env) as [apiKey|] eqn:Hkey.
    + destruct (truthy apiKey) eqn:Htruthy.
      * apply injective_projections.
        -- rewrite !(handle_request_fans_out REGISTRY fetcher describe category
                       unavailable_message internal_message req env _ apiKey
                       Hget Hkey Htruthy); [reflexivity | |].
           ++ intros symbol Hin. apply (Hgood apiKey w symbol Hin).
           ++ intros symbol Hin.
              apply (Hgood apiKey
                       {| now := now w; upstream := upstream w;
                          settles_first := order |} symbol Hin).
        -- rewrite !(handle_request_traces REGISTRY fetcher describe category
                       unavailable_message internal_message req env _ apiKey
                       Hget Hkey Htruthy). reflexivity.
      * unfold handle_request. rewrite Hget, Hkey, Htruthy. reflexivity.
    + unfold handle_request. rewrite Hget, Hkey. reflexivity.
  - unfold handle_request.
    destruct (method req =? "OPTIONS")%string; [reflexivity|].
    destruct (String.eqb_spec (method req) "GET"); [contradiction | reflexivity].
Qed.

(** A response with [grouped] in its body is the success response of a
    grouping handler, and [grouped] is what the [reduce] call returned
    for the array in [data]. *)
Lemma handle_request_grouped req env w res g :
  fst (serve req env w) = Some res -> grouped_of res = Some g ->
  exists type data,
    category = Some type /\ data_of res = Some data /\ statusCode res = Some 200 /\
    reduce type data [] = Returns g.
Proof.
  unfold handle_request.
  destruct (method req =? "OPTIONS")%string; [intros [= <-]; discriminate|].
  destruct (negb (method req =? "GET")%string); [intros [= <-]; discriminate|].
  destruct (API_KEY env) as [apiKey|]; [|intros [= <-]; discriminate].
  destruct (truthy apiKey); [|intros [= <-]; discriminate].
  destruct (Promise_all _ _) as [joined|]; [|discriminate]. cbn [fst].
  unfold respond.
  destruct joined as [data|e]; cbn [bind]; [|intros [= <-]; discriminate].
  destruct (every_error data) as [[|]|e]; cbn [bind]; try (intros [= <-]; discriminate).
  destruct category as [type|]; cbn [bind].
  - destruct (reduce type data []) as [g'|e] eqn:Hreduce; cbn [bind];
      [|intros [= <-]; discriminate].
    destruct (count_successful data); cbn [bind]; [|intros [= <-]; discriminate].
    intros [= <-] [= <-]. exists type, data. repeat split. exact Hreduce.
  - destruct (count_successful data); cbn [bind]; intros [= <-]; discriminate.
Qed.
End FanOutFacts.

(** ** What [reduce] builds *)

Lemma set_own_keys {A} (k x : string) (v : A) (o : JsObject A) :
  In x (map fst (set_own k v o)) -> x = k \/ In x (map fst o).
Proof.
  induction o as [|[k0 v0] o IH]; simpl.
  - intros [<-|[]]. now left.
  - destruct (String.eqb_spec k0 k) as [->|Hne]; simpl.
    + intros [<-|H]; auto.
    + intros [<-|H]; auto. destruct (IH H); auto.
Qed.

Lemma set_own_distinct {A} (k : string) (v : A) (o : JsObject A) :
  distinct (map fst o) = true -> distinct (map fst (set_own k v o)) = true.
Proof.
  induction o as [|[k0 v0] o IH]; simpl; [reflexivity|].
  intros Hd. apply andb_true_iff in Hd as [Hfresh Hd].
  destruct (String.eqb_spec k0 k) as [->|Hne]; simpl.
  - now rewrite Hfresh, Hd.
  - rewrite (IH Hd), andb_true_r. apply negb_true_iff.
    apply negb_true_iff in Hfresh.
    destruct (existsb (String.eqb k0) (map fst (set_own k v o))) eqn:Hex; [|reflexivity].
    apply existsb_eqb_In in Hex. apply set_own_keys in Hex as [Heq|Hin]; [congruence|].
    apply existsb_eqb_In in Hin. congruence.
Qed.

Section ReduceFacts.
Context {M F : Type}.
Variable type : M -> string.

Local Abbreviation result := (QuoteResult M F).
Local Abbreviation in_group k :=
  (fun q : result => negb (flagged q) && (type (meta_of q) =? k)%string).

Lemma group_step_cases (acc acc' : JsObject (list result)) (item : option result) :
  group_step type acc item = Returns acc' ->
  exists q, item = Some q /\
    if flagged q then acc' = acc
    else acc' = set_own (type (meta_of q))
                  (default [] (own_get (type (meta_of q)) acc) ++ [q])%list acc.
Proof.
  unfold group_step. destruct item as [q|]; cbn [read_error bind]; [|discriminate].
  fold (flagged q). exists q. split; [reflexivity|].
  destruct (flagged q); cbn [negb] in *; [now injection H as <-|].
  destruct (own_get (type (meta_of q)) acc) as [group|]; cbn [default].
  - now injection H as <-.
  - destruct (inherited (type (meta_of q))); [discriminate | now injection H as <-].
Qed.

Lemma reduce_distinct (data : list (option result)) (acc g : JsObject (list result)) :
  reduce type data acc = Returns g ->
  distinct (map fst acc) = true -> distinct (map fst g) = true.
Proof.
  revert acc. induction data as [|item data IH]; intros acc; cbn [reduce].
  - now intros [= <-].
  - destruct (group_step type acc item) as [acc'|e] eqn:Hstep; cbn [bind]; [|discriminate].
    intros Hg Hd. apply (IH acc' Hg).
    apply group_step_cases in Hstep as (q & _ & Hacc).
    destruct (flagged q); subst acc'; [exact Hd | now apply set_own_distinct].
Qed.

Lemma reduce_groups (data : list (option result)) (acc g : JsObject (list result)) :
  reduce type data acc = Returns g ->
  forall k,
    own_get k g =
    match List.filter (in_group k) (objects data) with
    | [] => own_get k acc
    | group => Some (default [] (own_get k acc) ++ group)%list
    end.
Proof.
  revert acc. induction data as [|item data IH]; intros acc; cbn [reduce].
  - intros [= <-] k. reflexivity.
  - destruct (group_step type acc item) as [acc'|e] eqn:Hstep; cbn [bind]; [|discriminate].
    intros Hg k. rewrite (IH acc' Hg k).
    apply group_step_cases in Hstep as (q & -> & Hacc).
    change (objects (Some q :: data)) with (q :: objects data).
    cbn [List.filter]. destruct (flagged q); cbn [negb andb].
    + now subst acc'.
    + subst acc'. destruct (String.eqb_spec (type (meta_of q)) k) as [<-|Hne].
      * rewrite own_get_set_own_eq. cbn [default].
        destruct (List.filter _ (objects data)) as [|q' group]; [reflexivity|].
        unfold id. now rewrite <- app_assoc.
      * now rewrite own_get_set_own_ne.
Qed.
End ReduceFacts.

(** ** The promises of the single-request handlers *)

Section SingleRequestPromises.
Variable registry : JsObject string.
Variables apiKey timestamp : string.

Lemma api_stocks_stands_for (w : world ApiStocks.stockprice) (ticker : string) :
  exists q,
    fst (settled (ApiStocks.fetchStockPrice registry)
           (fun ticker => Returns (own_get ticker registry)) apiKey timestamp w ticker)
    = Returns (Some q) /\
    stands_for (fst (ApiStocks.fetchStockPrice registry ticker apiKey (upstream w ticker)))
      timestamp (ticker, own_get ticker registry) (Some q).
Proof.
  unfold settled, ApiStocks.fetchStockPrice, stands_for, fetch. cbn [fst snd].
  destruct (answer (upstream w ticker 0%nat)) as [response|e]; cbn [bind catch].
  - destruct (negb (ok response)); cbn [bind catch].
    + eexists. split; [reflexivity|]. eexists. repeat split.
    + destruct (json response) as [data|e]; cbn [bind catch].
      * eexists. split; [reflexivity|]. eexists. repeat split.
      * eexists. split; [reflexivity|]. eexists. repeat split.
  - eexists. split; [reflexivity|]. eexists. repeat split.
Qed.

Lemma quote_stocks_promise (w : world Finnhub.quote) (ticker : string) :
  exists q,
    fst (settled (QuoteStocks.fetchStockPrice registry)
           (fun ticker => Returns (own_get ticker registry)) apiKey timestamp w ticker)
    = Returns (Some q) /\
    stands_for (fst (QuoteStocks.fetchStockPrice registry ticker apiKey (upstream w ticker)))
      timestamp (ticker, own_get ticker registry) (Some q) /\
    (articulate (upstream w ticker 0%nat) -> flagged q = is_failure q).
Proof.
  unfold settled, QuoteStocks.fetchStockPrice, stands_for, articulate, fetch.
  cbn [fst snd].
  destruct (answer (upstream w ticker 0%nat)) as [response|e]; cbn [bind catch].
  - destruct (negb (ok response)); cbn [bind catch].
    + eexists. split; [reflexivity|]. split; [eexists; repeat split|].
      intros _. reflexivity.
    + destruct (json response) as [data|e]; cbn [bind catch].
      * destruct (is_zero (Finnhub.c data) && is_zero (Finnhub.t data));
          cbn [bind catch].
        -- eexists. split; [reflexivity|]. split; [eexists; repeat split|].
           intros _. reflexivity.
        -- eexists. split; [reflexivity|]. split; [eexists; repeat split|].
           intros _. reflexivity.
      * eexists. split; [reflexivity|]. split; [eexists; repeat split|].
        intros He. unfold flagged, is_failure. cbn. now apply truthy_nonempty.
  - eexists. split; [reflexivity|]. split; [eexists; repeat split|].
    intros He. unfold flagged, is_failure. cbn. now apply truthy_nonempty.
Qed.
End SingleRequestPromises.

(** The fan-out of each handler is sound on every registry; the indicator
    handler needs categories that are not inherited names. *)
Lemma retrying_sound {V} (registry : JsObject V) (note : string)
    (category : option (V -> string)) :
  plain_categories category registry = true ->
  forall apiKey (w : world Finnhub.quote) symbol, In symbol (Object_keys registry) ->
    exists q,
      fst (settled (fun symbol apiKey up =>
                      fetchWithRetry (entry_of registry) note symbol apiKey None up)
             (entry_of registry) apiKey (now w) w symbol) = Returns (Some q) /\
      match category with
      | Some type => inherited (type (meta_of q)) = false
      | None => True
      end.
Proof.
  intros Hcat apiKey w symbol Hin.
  destruct (retrying_promise registry note apiKey (now w) w symbol Hin)
    as (q & info & Hown & Hq & Hstands & _).
  exists q. split; [exact Hq|].
  destruct Hstands as (q' & [= <-] & _ & Hmeta & _). cbn [snd] in Hmeta. rewrite Hmeta.
  now apply (plain_category_of registry category symbol).
Qed.

Lemma api_stocks_sound (registry : JsObject string) :
  forall apiKey (w : world ApiStocks.stockprice) ticker, In ticker (Object_keys registry) ->
    exists q,
      fst (settled (ApiStocks.fetchStockPrice registry)
             (fun ticker => Returns (own_get ticker registry)) apiKey (now w) w ticker)
      = Returns (Some q) /\ True.
Proof.
  intros apiKey w ticker _.
  destruct (api_stocks_stands_for registry apiKey (now w) w ticker) as (q & Hq & _).
  eauto.
Qed.

Lemma quote_stocks_sound (registry : JsObject string) :
  forall apiKey (w : world Finnhub.quote) ticker, In ticker (Object_keys registry) ->
    exists q,
      fst (settled (QuoteStocks.fetchStockPrice registry)
             (fun ticker => Returns (own_get ticker registry)) apiKey (now w) w ticker)
      = Returns (Some q) /\ True.
Proof.
  intros apiKey w ticker _.
  destruct (quote_stocks_promise registry apiKey (now w) w ticker) as (q & Hq & _).
  eauto.
Qed.

(** The trace of one symbol's fetch with the default number of retries. *)
Lemma default_trace_budget {M} (describe : string -> completion M)
    (note symbol apiKey : string) (up : nat -> exchange Finnhub.quote) :
  let tr := snd (fetchWithRetry describe note symbol apiKey None up) in
  (0 < requests tr <= 3)%nat /\
  fold_right Z.add 0 (waits tr) <= 3000 /\
  forall ev, In ev tr -> is_request ev = true -> ev = quote_request symbol apiKey.
Proof.
  unfold fetchWithRetry. cbn [default].
  destruct (attempts_from_zero describe note symbol apiKey 2 up) as (Hle & Hpos & _);
    [lia|].
  split; [change (Z.to_nat (2 + 1)) with 3%nat in Hle; lia|]. split.
  - destruct (attempts_waits describe note symbol apiKey 2 up 3 0)
      as (Hcount & Hwaits); [lia|].
    unfold attempt_range in *. change (Z.to_nat (2 + 1)) with 3%nat in *.
    specialize (Hcount ltac:(lia)).
    destruct (waits (snd (attempts describe note symbol apiKey 2 up (seq 0 3))))
      as [|a [|b [|c ws]]]; cbn [fold_right].
    + lia.
    + specialize (Hwaits 0%nat a eq_refl). cbn in Hwaits. lia.
    + pose proof (Hwaits 0%nat a eq_refl) as Ha.
      pose proof (Hwaits 1%nat b eq_refl) as Hb. cbn in Ha, Hb. lia.
    + cbn [length] in Hcount. lia.
  - intros ev. apply attempts_requests_are.
Qed.

(** ** Further properties of the handlers *)

(** X9.  No handler ever answers with the generic internal-error body of
    its outer [catch]: a fetch that throws is turned into a failure object
    by its own [.catch], so the join never rejects and the code after it
    has nothing to throw.  For the indicator handler this needs a registry
    whose categories are not names inherited from [Object.prototype]. *)
Theorem fan_out_never_reaches_the_outer_catch
    (indicators : JsObject Economic.info) (companies : JsObject Stocks.info)
    (tickers : JsObject string) (req : IncomingMessage) (env : process_env)
    (w : world Finnhub.quote) (w' : world ApiStocks.stockprice) :
  plain_categories (Some Economic.type) indicators = true ->
  (exists res, fst (Economic.handler indicators req env w) = Some res /\
               is_internal_error res = false) /\
  (exists res, fst (Stocks.handler companies req env w) = Some res /\
               is_internal_error res = false) /\
  (exists res, fst (ApiStocks.handler tickers req env w') = Some res /\
               is_internal_error res = false) /\
  (exists res, fst (QuoteStocks.handler tickers req env w) = Some res /\
               is_internal_error res = false).
Proof.
  intros Hcategories. split; [|split; [|split]].
  - apply handle_request_never_internal.
    now apply (retrying_sound indicators "" (Some Economic.type)).
  - apply handle_request_never_internal.
    now apply (retrying_sound companies " (market may be closed or invalid ticker)" None).
  - apply handle_request_never_internal. apply api_stocks_sound.
  - apply handle_request_never_internal. apply quote_stocks_sound.
Qed.

(** X10.  The outbound traffic of one GET with the credential: one trace
    per key of the registry, in [Object.keys] order.  A retrying handler
    sends between one and three requests per symbol, all of them the
    symbol's quote request with the abort timer, and sleeps at most 3000 ms
    for it; the two single-request handlers send exactly one request per
    ticker, without abort timer, the API Ninjas one with the key in the
    [X-Api-Key] header, the Finnhub one with the key in the URL. *)
Theorem requests_per_symbol
    (indicators : JsObject Economic.info) (companies : JsObject Stocks.info)
    (tickers : JsObject string) (req : IncomingMessage) (env : process_env)
    (apiKey : string) (w : world Finnhub.quote) (w' : world ApiStocks.stockprice) :
  method req = "GET" -> API_KEY env = Some apiKey -> truthy apiKey = true ->
  Forall2 (fun symbol tr =>
             (0 < requests tr <= 3)%nat /\
             fold_right Z.add 0 (waits tr) <= 3000 /\
             forall ev, In ev tr -> is_request ev = true ->
                        ev = quote_request symbol apiKey)
    (Object_keys indicators) (snd (Economic.handler indicators req env w)) /\
  Forall2 (fun symbol tr =>
             (0 < requests tr <= 3)%nat /\
             fold_right Z.add 0 (waits tr) <= 3000 /\
             forall ev, In ev tr -> is_request ev = true ->
                        ev = quote_request symbol apiKey)
    (Object_keys companies) (snd (Stocks.handler companies req env w)) /\
  snd (ApiStocks.handler tickers req env w')
  = map (fun ticker =>
           [Request ("https://api.api-ninjas.com/v1/stockprice?ticker=" ++ ticker)
              [("X-Api-Key", apiKey)] None])
      (Object_keys tickers) /\
  snd (QuoteStocks.handler tickers req env w)
  = map (fun ticker =>
           [Request ("https://finnhub.io/api/v1/quote?symbol=" ++ ticker
                     ++ "&token=" ++ apiKey) [] None])
      (Object_keys tickers).
Proof.
  intros Hget Hkey Htruthy. split; [|split; [|split]].
  - unfold Economic.handler, retrying_handler.
    rewrite (handle_request_traces _ _ _ _ _ _ req env w apiKey Hget Hkey Htruthy).
    apply Forall2_map_r_In. intros symbol _. apply default_trace_budget.
  - unfold Stocks.handler, retrying_handler.
    rewrite (handle_request_traces _ _ _ _ _ _ req env w apiKey Hget Hkey Htruthy).
    apply Forall2_map_r_In. intros symbol _. apply default_trace_budget.
  - unfold ApiStocks.handler.
    now rewrite (handle_request_traces _ _ _ _ _ _ req env w' apiKey Hget Hkey Htruthy).
  - unfold QuoteStocks.handler.
    now rewrite (handle_request_traces _ _ _ _ _ _ req env w apiKey Hget Hkey Htruthy).
Qed.

(** X11.  The two single-request handlers build the same envelope as the
    retrying ones: for a GET with the credential, [data] has one object per
    key of [COMPANIES], in [Object.keys] order, carrying the ticker and the
    company name of its entry; it is the object the fetch returned, or,
    when the fetch threw, a failure object with the message of the error. *)
Theorem single_request_envelope (tickers : JsObject string)
    (req : IncomingMessage) (env : process_env) (apiKey : string)
    (w : world Finnhub.quote) (w' : world ApiStocks.stockprice) :
  method req = "GET" -> API_KEY env = Some apiKey -> truthy apiKey = true ->
  (exists res data,
     fst (ApiStocks.handler tickers req env w') = Some res /\
     data_of res = Some data /\
     Forall2
       (fun ticker item =>
          exists name, own_get ticker tickers = Some name /\
            stands_for
              (fst (ApiStocks.fetchStockPrice tickers ticker apiKey (upstream w' ticker)))
              (now w') (ticker, Some name) item)
       (Object_keys tickers) data) /\
  (exists res data,
     fst (QuoteStocks.handler tickers req env w) = Some res /\
     data_of res = Some data /\
     Forall2
       (fun ticker item =>
          exists name, own_get ticker tickers = Some name /\
            stands_for
              (fst (QuoteStocks.fetchStockPrice tickers ticker apiKey (upstream w ticker)))
              (now w) (ticker, Some name) item)
       (Object_keys tickers) data).
Proof.
  intros Hget Hkey Htruthy. split.
  - destruct (handle_request_data tickers (ApiStocks.fetchStockPrice tickers)
                (fun ticker => Returns (own_get ticker tickers)) None
                "Unable to fetch stock data from API"
                "An unexpected error occurred while fetching stock data"
                req env w' apiKey Hget Hkey Htruthy (api_stocks_sound tickers))
      as (res & Hres & Hdata & _).
    exists res. eexists. split; [exact Hres|]. split; [exact Hdata|].
    apply fan_out_aligned. intros ticker Hin.
    destruct (Object_keys_own tickers ticker Hin) as [name Hname].
    destruct (api_stocks_stands_for tickers apiKey (now w') w' ticker) as (q & Hq & Hstands).
    exists (Some q). split; [exact Hq|]. exists name. split; [exact Hname|].
    now rewrite <- Hname.
  - destruct (handle_request_data tickers (QuoteStocks.fetchStockPrice tickers)
                (fun ticker => Returns (own_get ticker tickers)) None
                "Unable to fetch stock data from API"
                "An unexpected error occurred while fetching stock data"
                req env w apiKey Hget Hkey Htruthy (quote_stocks_sound tickers))
      as (res & Hres & Hdata & _).
    exists res. eexists. split; [exact Hres|]. split; [exact Hdata|].
    apply fan_out_aligned. intros ticker Hin.
    destruct (Object_keys_own tickers ticker Hin) as [name Hname].
    destruct (quote_stocks_promise tickers apiKey (now w) w ticker)
      as (q & Hq & Hstands & _).
    exists (Some q). split; [exact Hq|]. exists name. split; [exact Hname|].
    now rewrite <- Hname.
Qed.

(** X12.  On any registry, also one that declares array-index keys, the
    envelope of a retrying handler follows [Object.keys]: one object per
    key, in the order in which [Object.keys] lists them (array indices
    first, ascending), each standing for the entry of its key. *)
Theorem envelope_follows_object_keys
    (indicators : JsObject Economic.info) (companies : JsObject Stocks.info)
    (req : IncomingMessage) (env : process_env) (apiKey : string)
    (w : world Finnhub.quote) :
  method req = "GET" -> API_KEY env = Some apiKey -> truthy apiKey = true ->
  plain_categories (Some Economic.type) indicators = true ->
  (exists res data,
     fst (Economic.handler indicators req env w) = Some res /\
     data_of res = Some data /\
     Forall2
       (fun symbol item =>
          exists info, own_get symbol indicators = Some info /\
            stands_for
              (fst (Economic.fetchIndicator indicators symbol apiKey None (upstream w symbol)))
              (now w) (symbol, info) item)
       (Object_keys indicators) data) /\
  (exists res data,
     fst (Stocks.handler companies req env w) = Some res /\
     data_of res = Some data /\
     Forall2
       (fun symbol item =>
          exists info, own_get symbol companies = Some info /\
            stands_for
              (fst (Stocks.fetchStockPrice companies symbol apiKey None (upstream w symbol)))
              (now w) (symbol, info) item)
       (Object_keys companies) data).
Proof.
  intros Hget Hkey Htruthy Hcategories. split.
  - destruct (handle_request_data indicators
                (fun symbol apiKey up =>
                   fetchWithRetry (entry_of indicators) "" symbol apiKey None up)
                (entry_of indicators) (Some Economic.type)
                "Unable to fetch economic indicator data from API"
                "An unexpected error occurred while fetching economic data"
                req env w apiKey Hget Hkey Htruthy
                (retrying_sound indicators "" (Some Economic.type) Hcategories))
      as (res & Hres & Hdata & _).
    exists res. eexists. split; [exact Hres|]. split; [exact Hdata|].
    apply fan_out_aligned. intros symbol Hin.
    destruct (retrying_promise indicators "" apiKey (now w) w symbol Hin)
      as (q & info & Hown & Hq & Hstands & _).
    exists (Some q). split; [exact Hq|]. exists info. split; [exact Hown | exact Hstands].
  - destruct (handle_request_data companies
                (fun symbol apiKey up =>
                   fetchWithRetry (entry_of companies)
                     " (market may be closed or invalid ticker)" symbol apiKey None up)
                (entry_of companies) None
                "Unable to fetch stock data from API"
                "An unexpected error occurred while fetching stock data"
                req env w apiKey Hget Hkey Htruthy
                (retrying_sound companies " (market may be closed or invalid ticker)"
                   None eq_refl))
      as (res & Hres & Hdata & _).
    exists res. eexists. split; [exact Hres|]. split; [exact Hdata|].
    apply fan_out_aligned. intros symbol Hin.
    destruct (retrying_promise companies " (market may be closed or invalid ticker)"
                apiKey (now w) w symbol Hin)
      as (q & info & Hown & Hq & Hstands & _).
    exists (Some q). split; [exact Hq|]. exists info. split; [exact Hown | exact Hstands].
Qed.

(** X13.  The single-request Finnhub handler follows the same response
    policy as the others: 503 with the service-unavailable body and every
    result when all results are failures, 200 with the whole array and no
    [grouped] when at least one is a success.  The upstream is assumed to
    raise errors with non-empty messages. *)
Theorem quote_stocks_handler_follows_policy (tickers : JsObject string)
    (apiKey : string) (nodeEnv : option string) (w : world Finnhub.quote) :
  truthy apiKey = true ->
  (forall ticker, articulate (upstream w ticker 0%nat)) ->
  exists res,
    fst (QuoteStocks.handler tickers {| method := "GET" |}
           {| API_KEY := Some apiKey; NODE_ENV := nodeEnv |} w) = Some res /\
    data_of res = Some (QuoteStocks.stockData tickers apiKey w) /\
    follows_policy None "Unable to fetch stock data from API" (now w)
      (QuoteStocks.stockData tickers apiKey w) res.
Proof.
  intros Htruthy Hup. unfold QuoteStocks.handler, QuoteStocks.stockData.
  destruct (handle_request_sends_data tickers
              (QuoteStocks.fetchStockPrice tickers)
              (fun ticker => Returns (own_get ticker tickers)) None
              "Unable to fetch stock data from API"
              "An unexpected error occurred while fetching stock data"
              {| API_KEY := Some apiKey; NODE_ENV := nodeEnv |} w apiKey
              eq_refl Htruthy (fun q => flagged q = is_failure q))
    as (qs & res & Hqs & Hflag & Hres & _ & Hshape).
  { intros ticker Hin.
    destruct (quote_stocks_promise tickers apiKey (now w) w ticker) as (q & Hq & _ & Hf).
    exists q. split; [exact Hq|]. split; [now apply Hf | exact I]. }
  exists res. split; [exact Hres|]. rewrite Hqs in *.
  now apply (shape_follows_policy None _ (now w) qs res (cors fresh)).
Qed.

(** X14.  Whenever the indicator handler sends [grouped], it is a
    partition of the results without a truthy [error]: its keys are
    pairwise distinct, the group of a key is exactly the list of those
    results whose type is the key, in [data] order, no group is empty, and
    every such result is in the group of its type. *)
Theorem grouped_partitions_the_successes (indicators : JsObject Economic.info)
    (req : IncomingMessage) (env : process_env) (w : world Finnhub.quote)
    (res : ServerResponse (QuoteResult Economic.info figures))
    (g : JsObject (list (QuoteResult Economic.info figures))) :
  fst (Economic.handler indicators req env w) = Some res ->
  grouped_of res = Some g ->
  exists data,
    data_of res = Some data /\ statusCode res = Some 200 /\
    distinct (map fst g) = true /\
    (forall k group,
       In (k, group) g <->
       group <> [] /\
       group = List.filter
                 (fun q => negb (flagged q) && (Economic.type (meta_of q) =? k)%string)
                 (objects data)) /\
    (forall q, In q (objects data) -> flagged q = false ->
       exists group, In (Economic.type (meta_of q), group) g /\ In q group).
Proof.
  intros Hres Hg. unfold Economic.handler, retrying_handler in Hres.
  destruct (handle_request_grouped _ _ _ _ _ _ req env w res g Hres Hg)
    as (type & data & [= <-] & Hdata & Hstatus & Hreduce).
  pose proof (reduce_distinct Economic.type data [] g Hreduce eq_refl) as Hdistinct.
  pose proof (reduce_groups Economic.type data [] g Hreduce) as Hgroups.
  assert (forall k group,
            In (k, group) g <->
            group <> [] /\
            group = List.filter
                      (fun q => negb (flagged q) && (Economic.type (meta_of q) =? k)%string)
                      (objects data)) as Hmembers.
  { intros k group. split.
    - intros Hin. apply (own_get_In k group g Hdistinct) in Hin.
      rewrite Hgroups in Hin.
      destruct (List.filter _ (objects data)) as [|q l]; [discriminate|].
      cbn in Hin. injection Hin as <-. split; [discriminate | reflexivity].
    - intros [Hne ->]. apply own_get_is_In. rewrite Hgroups.
      destruct (List.filter _ (objects data)) as [|q l]; [congruence | reflexivity]. }
  exists data. split; [exact Hdata|]. split; [exact Hstatus|].
  split; [exact Hdistinct|]. split; [exact Hmembers|].
  intros q Hin Hq.
  assert (In q (List.filter
                  (fun q' => negb (flagged q') &&
                             (Economic.type (meta_of q') =? Economic.type (meta_of q))%string)
                  (objects data))) as Hmember.
  { apply List.filter_In. split; [exact Hin|]. now rewrite Hq, String.eqb_refl. }
  eexists. split; [|exact Hmember].
  apply Hmembers. split; [|reflexivity].
  intros Hempty. now rewrite Hempty in Hmember.
Qed.

(** X15.  The order in which the per-symbol promises settle changes
    nothing: each handler sends the same response and makes the same
    requests in any two runs that differ only in that order. *)
Theorem settle_order_does_not_matter
    (indicators : JsObject Economic.info) (companies : JsObject Stocks.info)
    (tickers : JsObject string) (req : IncomingMessage) (env : process_env)
    (w : world Finnhub.quote) (w' : world ApiStocks.stockprice) (order : list nat) :
  Economic.handler indicators req env
    {| now := now w; upstream := upstream w; settles_first := order |}
  = Economic.handler indicators req env w /\
  Stocks.handler companies req env
    {| now := now w; upstream := upstream w; settles_first := order |}
  = Stocks.handler companies req env w /\
  ApiStocks.handler tickers req env
    {| now := now w'; upstream := upstream w'; settles_first := order |}
  = ApiStocks.handler tickers req env w' /\
  QuoteStocks.handler tickers req env
    {| now := now w; upstream := upstream w; settles_first := order |}
  = QuoteStocks.handler tickers req env w.
Proof.
  split; [|split; [|split]].
  - apply handle_request_order_free. intros apiKey w0 symbol Hin.
    destruct (retrying_promise indicators "" apiKey (now w0) w0 symbol Hin)
      as (q & _ & _ & Hq & _). eauto.
  - apply handle_request_order_free. intros apiKey w0 symbol Hin.
    destruct (retrying_promise companies " (market may be closed or invalid ticker)"
                apiKey (now w0) w0 symbol Hin) as (q & _ & _ & Hq & _). eauto.
  - apply handle_request_order_free. intros apiKey w0 ticker Hin.
    destruct (api_stocks_sound tickers apiKey w0 ticker Hin) as (q & Hq & _). eauto.
  - apply handle_request_order_free. intros apiKey w0 ticker Hin.
    destruct (quote_stocks_sound tickers apiKey w0 ticker Hin) as (q & Hq & _). eauto.
Qed.


(** With six retries the waits of a call can get shorter: the backoff
    after attempt 4 is 8000 ms, the rate-limit pause after attempt 5 is
    6000 ms. *)
Example waits_can_shrink_with_six_retries :
  waits (snd (Economic.fetchIndicator Economic.INDICATORS "^GSPC" "key" (Some 6)
                MoreSamples.late_limit))
  = [500; 1000; 2000; 4000; 8000; 6000].
Proof. reflexivity. Qed.

(** ** The further properties at sample inputs *)

Lemma other_methods_stop_at_the_gate_witness :
  method MoreSamples.post <> "GET" /\
  Economic.handler Economic.INDICATORS MoreSamples.post
    {| API_KEY := Some "key"; NODE_ENV := None |} Samples.steady
  = (Some {| headers := cors_headers; statusCode := Some 405;
             body := Some (ErrorBody "Method not allowed"
                             "Only GET requests are supported");
             finished := true |}, []).
Proof.
  assert (method MoreSamples.post <> "GET") as H by discriminate.
  split; [exact H|].
  exact (other_methods_stop_at_the_gate Economic.INDICATORS
           (fun symbol apiKey up =>
              fetchWithRetry (entry_of Economic.INDICATORS) "" symbol apiKey None up)
           (entry_of Economic.INDICATORS) (Some Economic.type)
           "Unable to fetch economic indicator data from API"
           "An unexpected error occurred while fetching economic data"
           MoreSamples.post {| API_KEY := Some "key"; NODE_ENV := None |}
           Samples.steady H).
Defined.

Lemma falsy_credential_is_a_configuration_error_witness :
  method {| method := "GET" |} = "GET" /\
  truthy_opt (API_KEY {| API_KEY := Some ""; NODE_ENV := None |}) = false /\
  snd (ApiStocks.handler ApiStocks.COMPANIES {| method := "GET" |}
         {| API_KEY := Some ""; NODE_ENV := None |} Samples.down) = [].
Proof.
  assert (method {| method := "GET" |} = "GET") as H1 by reflexivity.
  assert (truthy_opt (API_KEY {| API_KEY := Some ""; NODE_ENV := None |}) = false) as H2
    by reflexivity.
  split; [exact H1|]. split; [exact H2|].
  unfold ApiStocks.handler.
  now rewrite (falsy_credential_is_a_configuration_error ApiStocks.COMPANIES
                 (ApiStocks.fetchStockPrice ApiStocks.COMPANIES)
                 (fun ticker => Returns (own_get ticker ApiStocks.COMPANIES)) None
                 "Unable to fetch stock data from API"
                 "An unexpected error occurred while fetching stock data"
                 {| method := "GET" |} {| API_KEY := Some ""; NODE_ENV := None |}
                 Samples.down H1 H2).
Defined.

Lemma waits_between_requests_witness :
  0 <= default 2 None /\
  S (length (waits (snd (Economic.fetchIndicator Economic.INDICATORS "^GSPC" "key" None
                           Samples.three_failures))))
  = requests (snd (Economic.fetchIndicator Economic.INDICATORS "^GSPC" "key" None
                     Samples.three_failures)).
Proof.
  assert (0 <= default 2 None) as Hr by (cbn; lia).
  split; [exact Hr|].
  exact (proj1 (waits_between_requests (entry_of Economic.INDICATORS) "" "^GSPC" "key"
                  None Samples.three_failures Hr)).
Defined.

Lemma outcome_is_the_first_returning_attempt_witness :
  0 <= default 2 None /\
  exists q,
    fst (Economic.fetchIndicator Economic.INDICATORS "^GSPC" "key" None
           Samples.two_limits_then_quote) = Returns (Some q).
Proof.
  assert (0 <= default 2 None) as Hr by (cbn; lia).
  split; [exact Hr|].
  destruct (outcome_is_the_first_returning_attempt (entry_of Economic.INDICATORS) ""
              "^GSPC" "key" None Samples.two_limits_then_quote Hr) as [Hreturns _].
  eexists. apply Hreturns. exists 2%nat.
  split; [cbn; lia|]. split; [reflexivity|].
  intros [|[|j]] q' Hj; [discriminate | discriminate | lia].
Defined.

Lemma every_attempt_sends_the_same_request_witness :
  In (quote_request "AAPL" "key")
    (snd (Stocks.fetchStockPrice Stocks.COMPANIES "AAPL" "key" None
            Samples.slow_then_quote)) /\
  is_request (quote_request "AAPL" "key") = true /\
  quote_request "AAPL" "key"
  = Request "https://finnhub.io/api/v1/quote?symbol=AAPL&token=key"
      [("Accept", "application/json")] (Some 5000).
Proof.
  assert (In (quote_request "AAPL" "key")
            (snd (Stocks.fetchStockPrice Stocks.COMPANIES "AAPL" "key" None
                    Samples.slow_then_quote))) as H1 by (now left).
  assert (is_request (quote_request "AAPL" "key") = true) as H2 by reflexivity.
  split; [exact H1|]. split; [exact H2|].
  exact (every_attempt_sends_the_same_request (entry_of Stocks.COMPANIES)
           " (market may be closed or invalid ticker)" "AAPL" "key" None
           Samples.slow_then_quote (quote_request "AAPL" "key") H1 H2).
Defined.

Lemma unregistered_symbol_exhausts_retries_witness :
  0 <= default 2 None /\
  own_get "TSLA" Economic.INDICATORS = None /\
  inherited "TSLA" = false /\
  (forall k, Z.of_nat k <= default 2 None ->
     exists data, delivers_quote (MoreSamples.healthy k) data) /\
  requests (snd (Economic.fetchIndicator Economic.INDICATORS "TSLA" "key" None
                   MoreSamples.healthy)) = 3%nat.
Proof.
  assert (0 <= default 2 None) as H1 by (cbn; lia).
  assert (own_get "TSLA" Economic.INDICATORS = None) as H2 by reflexivity.
  assert (inherited "TSLA" = false) as Hown by reflexivity.
  assert (forall k, Z.of_nat k <= default 2 None ->
            exists data, delivers_quote (MoreSamples.healthy k) data) as H3.
  { intros k _. eexists. eexists. repeat split; reflexivity. }
  split; [exact H1|]. split; [exact H2|]. split; [exact Hown|]. split; [exact H3|].
  exact (proj2 (unregistered_symbol_exhausts_retries Economic.INDICATORS "" "TSLA" "key"
                  None MoreSamples.healthy H1 H2 Hown H3)).
Defined.

Lemma fan_out_never_reaches_the_outer_catch_witness :
  plain_categories (Some Economic.type) Economic.INDICATORS = true /\
  exists res,
    fst (Economic.handler Economic.INDICATORS {| method := "GET" |}
           {| API_KEY := Some "key"; NODE_ENV := Some "development" |} Samples.choppy)
    = Some res /\
    is_internal_error res = false.
Proof.
  assert (plain_categories (Some Economic.type) Economic.INDICATORS = true) as H
    by reflexivity.
  split; [exact H|].
  exact (proj1 (fan_out_never_reaches_the_outer_catch Economic.INDICATORS Stocks.COMPANIES
                  ApiStocks.COMPANIES {| method := "GET" |}
                  {| API_KEY := Some "key"; NODE_ENV := Some "development" |}
                  Samples.choppy Samples.down H)).
Defined.

Lemma requests_per_symbol_witness :
  method {| method := "GET" |} = "GET" /\
  API_KEY {| API_KEY := Some "key"; NODE_ENV := None |} = Some "key" /\
  truthy "key" = true /\
  snd (QuoteStocks.handler QuoteStocks.COMPANIES {| method := "GET" |}
         {| API_KEY := Some "key"; NODE_ENV := None |} Samples.steady)
  = map (fun ticker =>
           [Request ("https://finnhub.io/api/v1/quote?symbol=" ++ ticker
                     ++ "&token=" ++ "key") [] None])
      (Object_keys QuoteStocks.COMPANIES).
Proof.
  assert (method {| method := "GET" |} = "GET") as H1 by reflexivity.
  assert (API_KEY {| API_KEY := Some "key"; NODE_ENV := None |} = Some "key") as H2
    by reflexivity.
  assert (truthy "key" = true) as H3 by reflexivity.
  split; [exact H1|]. split; [exact H2|]. split; [exact H3|].
  exact (proj2 (proj2 (proj2
           (requests_per_symbol Economic.INDICATORS Stocks.COMPANIES QuoteStocks.COMPANIES
              {| method := "GET" |} {| API_KEY := Some "key"; NODE_ENV := None |} "key"
              Samples.steady Samples.down H1 H2 H3)))).
Defined.

Lemma single_request_envelope_witness :
  method {| method := "GET" |} = "GET" /\
  API_KEY {| API_KEY := Some "key"; NODE_ENV := None |} = Some "key" /\
  truthy "key" = true /\
  exists res data,
    fst (ApiStocks.handler ApiStocks.COMPANIES {| method := "GET" |}
           {| API_KEY := Some "key"; NODE_ENV := None |} Samples.down) = Some res /\
    data_of res = Some data /\
    length data = length (Object_keys ApiStocks.COMPANIES).
Proof.
  assert (method {| method := "GET" |} = "GET") as H1 by reflexivity.
  assert (API_KEY {| API_KEY := Some "key"; NODE_ENV := None |} = Some "key") as H2
    by reflexivity.
  assert (truthy "key" = true) as H3 by reflexivity.
  split; [exact H1|]. split; [exact H2|]. split; [exact H3|].
  destruct (single_request_envelope ApiStocks.COMPANIES {| method := "GET" |}
              {| API_KEY := Some "key"; NODE_ENV := None |} "key"
              Samples.steady Samples.down H1 H2 H3) as [(res & data & Hres & Hdata & Hall) _].
  exists res, data. split; [exact Hres|]. split; [exact Hdata|].
  symmetry. exact (Forall2_length _ _ _ Hall).
Defined.

Lemma envelope_follows_object_keys_witness :
  method {| method := "GET" |} = "GET" /\
  API_KEY {| API_KEY := Some "key"; NODE_ENV := None |} = Some "key" /\
  truthy "key" = true /\
  plain_categories (Some Economic.type) Economic.INDICATORS = true /\
  exists res data,
    fst (Stocks.handler Samples.numbered {| method := "GET" |}
           {| API_KEY := Some "key"; NODE_ENV := None |} Samples.steady) = Some res /\
    data_of res = Some data /\
    length data = length (Object_keys Samples.numbered).
Proof.
  assert (method {| method := "GET" |} = "GET") as H1 by reflexivity.
  assert (API_KEY {| API_KEY := Some "key"; NODE_ENV := None |} = Some "key") as H2
    by reflexivity.
  assert (truthy "key" = true) as H3 by reflexivity.
  assert (plain_categories (Some Economic.type) Economic.INDICATORS = true) as H4
    by reflexivity.
  split; [exact H1|]. split; [exact H2|]. split; [exact H3|]. split; [exact H4|].
  destruct (envelope_follows_object_keys Economic.INDICATORS Samples.numbered
              {| method := "GET" |} {| API_KEY := Some "key"; NODE_ENV := None |} "key"
              Samples.steady H1 H2 H3 H4) as [_ (res & data & Hres & Hdata & Hall)].
  exists res, data. split; [exact Hres|]. split; [exact Hdata|].
  symmetry. exact (Forall2_length _ _ _ Hall).
Defined.

Lemma quote_stocks_handler_follows_policy_witness :
  truthy "key" = true /\
  (forall ticker, articulate (upstream Samples.steady ticker 0%nat)) /\
  exists res,
    fst (QuoteStocks.handler QuoteStocks.COMPANIES {| method := "GET" |}
           {| API_KEY := Some "key"; NODE_ENV := None |} Samples.steady) = Some res /\
    follows_policy None "Unable to fetch stock data from API" (now Samples.steady)
      (QuoteStocks.stockData QuoteStocks.COMPANIES "key" Samples.steady) res.
Proof.
  assert (truthy "key" = true) as H1 by reflexivity.
  assert (forall ticker, articulate (upstream Samples.steady ticker 0%nat)) as H2.
  { intros ticker. unfold articulate. cbn. exact I. }
  split; [exact H1|]. split; [exact H2|].
  destruct (quote_stocks_handler_follows_policy QuoteStocks.COMPANIES "key" None
              Samples.steady H1 H2) as (res & Hres & _ & Hpolicy).
  exists res. split; assumption.
Defined.

Lemma grouped_partitions_the_successes_witness :
  exists res g,
    fst (Economic.handler Economic.INDICATORS {| method := "GET" |}
           {| API_KEY := Some "key"; NODE_ENV := None |} Samples.choppy) = Some res /\
    grouped_of res = Some g /\
    distinct (map fst g) = true.
Proof.
  destruct (fst (Economic.handler Economic.INDICATORS {| method := "GET" |}
                   {| API_KEY := Some "key"; NODE_ENV := None |} Samples.choppy))
    as [res|] eqn:Hres; [|vm_compute in Hres; discriminate].
  destruct (grouped_of res) as [g|] eqn:Hg.
  - exists res, g. split; [reflexivity|]. split; [exact Hg|].
    destruct (grouped_partitions_the_successes Economic.INDICATORS {| method := "GET" |}
                {| API_KEY := Some "key"; NODE_ENV := None |} Samples.choppy res g Hres Hg)
      as (data & _ & _ & Hdistinct & _).
    exact Hdistinct.
  - exfalso. vm_compute in Hres. injection Hres as <-. discriminate.
Defined.

(** ** Rate limiting to the end, and who sends [grouped] *)

Section RateLimited.
Context {M : Type}.
Variable describe : string -> completion M.
Variable note : string.
Variables symbol apiKey : string.
Variable r : Z.
Variable up : nat -> exchange Finnhub.quote.

Local Abbreviation run range := (attempts describe note symbol apiKey r up range).
Local Abbreviation tried k := (try_attempt describe note symbol r (Z.of_nat k) (up k)).

Lemma try_attempt_limited (k : nat) (response : UpstreamResponse Finnhub.quote) :
  fetch (Some 5000) (up k) = Returns response -> status response = 429 ->
  tried k = if Z.of_nat k <? r then Continue (1000 * (Z.of_nat k + 1))
            else Caught (api_error symbol response).
Proof.
  intros Hfetch Hstatus. unfold try_attempt, ok. rewrite Hfetch, Hstatus. reflexivity.
Qed.

Lemma waits_rate_limited (n a : nat) :
  Z.of_nat (a + n) = r ->
  (forall k, (a <= k < a + n)%nat -> tried k = Continue (1000 * (Z.of_nat k + 1))) ->
  (exists e, tried (a + n) = Caught e) ->
  waits (snd (run (seq a (S n)))) = map (fun j => 1000 * (Z.of_nat j + 1)) (seq a n).
Proof.
  revert a. induction n as [|n IH]; intros a Hend Hlimited [e He].
  - rewrite Nat.add_0_r in *. cbn [seq attempts map]. rewrite He.
    destruct (Z.eqb_spec (Z.of_nat a) r); [reflexivity | contradiction].
  - change (seq a (S (S n))) with (a :: seq (S a) (S n)).
    cbn [attempts]. rewrite (Hlimited a) by lia.
    destruct (run (seq (S a) (S n))) as [res tr] eqn:Hrest. cbn [snd seq map].
    change (waits (quote_request symbol apiKey :: Sleep (1000 * (Z.of_nat a + 1)) :: tr))
      with (1000 * (Z.of_nat a + 1) :: waits tr).
    f_equal. change tr with (snd (res, tr)). rewrite <- Hrest.
    apply IH.
    + lia.
    + intros k Hk. apply Hlimited. lia.
    + exists e. now replace (S a + n)%nat with (a + S n)%nat by lia.
Qed.
End RateLimited.

(** X17.  A symbol that is rate limited on every attempt costs
    [retries + 1] requests with the pauses 1000, 2000, ..., [1000 * retries]
    between them; the 429 answer to the last attempt is not retried but
    thrown as an ordinary API error with its status and text. *)
Theorem persistent_rate_limit_surfaces_as_api_error {M}
    (describe : string -> completion M) (note symbol apiKey : string)
    (retries : option Z) (up : nat -> exchange Finnhub.quote) :
  0 <= default 2 retries ->
  (forall k, Z.of_nat k <= default 2 retries ->
     exists response, fetch (Some 5000) (up k) = Returns response /\
                      status response = 429) ->
  exists response,
    fetch (Some 5000) (up (Z.to_nat (default 2 retries))) = Returns response /\
    fst (fetchWithRetry describe note symbol apiKey retries up)
    = Throws (mkError ("API request failed for " ++ symbol ++ ": 429 - "
                       ++ default "Unknown error" (text response))) /\
    requests (snd (fetchWithRetry describe note symbol apiKey retries up))
    = Z.to_nat (default 2 retries + 1) /\
    waits (snd (fetchWithRetry describe note symbol apiKey retries up))
    = map (fun j => 1000 * (Z.of_nat j + 1)) (seq 0 (Z.to_nat (default 2 retries))).
Proof.
  intros Hr Hlimited. unfold fetchWithRetry.
  set (r := default 2 retries) in *.
  destruct (Hlimited (Z.to_nat r)) as (response & Hfetch & Hstatus); [lia|].
  assert (try_attempt describe note symbol r (Z.of_nat (Z.to_nat r)) (up (Z.to_nat r))
          = Caught (api_error symbol response)) as Hlast.
  { rewrite (try_attempt_limited describe note symbol r up _ response Hfetch Hstatus).
    destruct (Z.ltb_spec (Z.of_nat (Z.to_nat r)) r); [lia | reflexivity]. }
  assert (forall k, (k < Z.to_nat r)%nat ->
            try_attempt describe note symbol r (Z.of_nat k) (up k)
            = Continue (1000 * (Z.of_nat k + 1))) as Hbefore.
  { intros k Hk. destruct (Hlimited k) as (response' & Hfetch' & Hstatus'); [lia|].
    rewrite (try_attempt_limited describe note symbol r up _ response' Hfetch' Hstatus').
    destruct (Z.ltb_spec (Z.of_nat k) r); [reflexivity | lia]. }
  assert (forall j q', Z.of_nat j <= r ->
            try_attempt describe note symbol r (Z.of_nat j) (up j) <> Done q') as Hnone.
  { intros j q' Hj. destruct (Nat.eq_dec j (Z.to_nat r)) as [->|Hne].
    - rewrite Hlast. discriminate.
    - rewrite Hbefore by lia. discriminate. }
  exists response. split; [exact Hfetch|]. split; [|split].
  - apply attempts_throw_iff; [exact Hr|]. split; [|exact Hnone].
    rewrite Hlast. unfold api_error. now rewrite Hstatus.
  - destruct (attempts_from_zero describe note symbol apiKey r up Hr) as (Hle & _ & _).
    assert (Z.to_nat r <
            requests (snd (attempts describe note symbol apiKey r up (attempt_range r))))%nat.
    { apply attempts_reach; [exact Hr | lia |].
      intros j q' Hj. apply Hnone. lia. }
    lia.
  - unfold attempt_range. replace (Z.to_nat (r + 1)) with (S (Z.to_nat r)) by lia.
    apply waits_rate_limited.
    + cbn [Nat.add]. lia.
    + intros k Hk. apply Hbefore. lia.
    + exists (api_error symbol response). exact Hlast.
Qed.

Section GroupedFacts.
Context {V M F P : Type}.
Variable REGISTRY : JsObject V.
Variable fetcher :
  string -> string -> (nat -> exchange P) ->
  completion (option (QuoteResult M F)) * list event.
Variable describe : string -> completion M.
Variable category : option (M -> string).
Variables unavailable_message internal_message : string.

Lemma handle_request_groups_iff req env w res :
  fst (handle_request REGISTRY fetcher describe category unavailable_message
         internal_message req env w) = Some res ->
  (grouped_of res <> None <->
   category <> None /\ statusCode res = Some 200 /\ body res <> None).
Proof.
  unfold handle_request.
  destruct (method req =? "OPTIONS")%string.
  { intros [= <-]. cbn. split; [congruence | intros (_ & _ & H); congruence]. }
  destruct (negb (method req =? "GET")%string).
  { intros [= <-]. cbn. split; [congruence | intros (_ & H & _); discriminate]. }
  assert (forall res' : ServerResponse (QuoteResult M F),
            Some (configuration_error (cors fresh)) = Some res' ->
            (grouped_of res' <> None <->
             category <> None /\ statusCode res' = Some 200 /\ body res' <> None))
    as Hconfiguration.
  { intros res' [= <-]. cbn. split; [congruence | intros (_ & H & _); discriminate]. }
  destruct (API_KEY env) as [apiKey|]; [|apply Hconfiguration].
  destruct (truthy apiKey); [|apply Hconfiguration].
  destruct (Promise_all _ _) as [joined|]; [|discriminate]. cbn [fst].
  assert (forall error (res' : ServerResponse (QuoteResult M F)),
            Some (internal_error internal_message env error (cors fresh)) = Some res' ->
            (grouped_of res' <> None <->
             category <> None /\ statusCode res' = Some 200 /\ body res' <> None))
    as Hinternal.
  { intros error res' [= <-]. cbn. split; [congruence | intros (_ & H & _); discriminate]. }
  unfold respond.
  destruct joined as [data|e]; cbn [bind]; [|apply Hinternal].
  destruct (every_error data) as [[|]|e]; cbn [bind]; [| |apply Hinternal].
  { intros [= <-]. cbn. split; [congruence | intros (_ & H & _); discriminate]. }
  destruct category as [type|]; cbn [bind].
  - destruct (reduce type data []) as [g|e]; cbn [bind]; [|apply Hinternal].
    destruct (count_successful data); cbn [bind]; [|apply Hinternal].
    intros [= <-]. cbn. split; [intros _; repeat split; discriminate | discriminate].
  - destruct (count_successful data); cbn [bind]; [|apply Hinternal].
    intros [= <-]. cbn. split; [congruence | intros (H & _); congruence].
Qed.
End GroupedFacts.

(** X18.  Only the indicator handler groups: the three stock handlers
    never send [grouped], and the indicator handler sends it exactly with
    its 200 response to a GET, never with the bodyless 200 of OPTIONS nor
    with a 405, 500 or 503. *)
Theorem only_the_indicator_handler_groups
    (indicators : JsObject Economic.info) (companies : JsObject Stocks.info)
    (tickers : JsObject string) (req : IncomingMessage) (env : process_env)
    (w : world Finnhub.quote) (w' : world ApiStocks.stockprice) :
  (forall res, fst (Economic.handler indicators req env w) = Some res ->
     (grouped_of res <> None <-> statusCode res = Some 200 /\ body res <> None)) /\
  (forall res, fst (Stocks.handler companies req env w) = Some res ->
     grouped_of res = None) /\
  (forall res, fst (ApiStocks.handler tickers req env w') = Some res ->
     grouped_of res = None) /\
  (forall res, fst (QuoteStocks.handler tickers req env w) = Some res ->
     grouped_of res = None).
Proof.
  split; [|split; [|split]]; intros res Hres.
  - apply handle_request_groups_iff in Hres. rewrite Hres.
    split; [tauto | intros [H1 H2]; repeat split; [discriminate | exact H1 | exact H2]].
  - apply handle_request_groups_iff in Hres.
    destruct (grouped_of res); [|reflexivity].
    destruct Hres as [Hres _]. destruct Hres as [H _]; [discriminate | contradiction].
  - apply handle_request_groups_iff in Hres.
    destruct (grouped_of res); [|reflexivity].
    destruct Hres as [Hres _]. destruct Hres as [H _]; [discriminate | contradiction].
  - apply handle_request_groups_iff in Hres.
    destruct (grouped_of res); [|reflexivity].
    destruct Hres as [Hres _]. destruct Hres as [H _]; [discriminate | contradiction].
Qed.

Lemma persistent_rate_limit_surfaces_as_api_error_witness :
  0 <= default 2 None /\
  (forall k, Z.of_nat k <= default 2 None ->
     exists response, fetch (Some 5000) (MoreSamples.always_limited k) = Returns response /\
                      status response = 429) /\
  waits (snd (Stocks.fetchStockPrice Stocks.COMPANIES "AAPL" "key" None
                MoreSamples.always_limited)) = [1000; 2000].
Proof.
  assert (0 <= default 2 None) as H1 by (cbn; lia).
  assert (forall k, Z.of_nat k <= default 2 None ->
            exists response,
              fetch (Some 5000) (MoreSamples.always_limited k) = Returns response /\
              status response = 429) as H2.
  { intros k _. eexists. split; reflexivity. }
  split; [exact H1|]. split; [exact H2|].
  destruct (persistent_rate_limit_surfaces_as_api_error (entry_of Stocks.COMPANIES)
              " (market may be closed or invalid ticker)" "AAPL" "key" None
              MoreSamples.always_limited H1 H2) as (response & _ & _ & _ & Hwaits).
  exact Hwaits.
Defined.

Lemma only_the_indicator_handler_groups_witness :
  exists res,
    fst (Stocks.handler Stocks.COMPANIES {| method := "GET" |}
           {| API_KEY := Some "key"; NODE_ENV := None |} Samples.steady) = Some res /\
    grouped_of res = None.
Proof.
  destruct (fst (Stocks.handler Stocks.COMPANIES {| method := "GET" |}
                   {| API_KEY := Some "key"; NODE_ENV := None |} Samples.steady))
    as [res|] eqn:Hres; [|vm_compute in Hres; discriminate].
  exists res. split; [reflexivity|].
  destruct (only_the_indicator_handler_groups Economic.INDICATORS Stocks.COMPANIES
              ApiStocks.COMPANIES {| method := "GET" |}
              {| API_KEY := Some "key"; NODE_ENV := None |} Samples.steady Samples.down)
    as (_ & Hstocks & _).
  exact (Hstocks res Hres).
Defined.

